(** * Pad extraction from two transmission-line measurements (pads.py)

    A shallow embedding of the numeric pipeline of [pads.py]:
    [enforce_reciprocal_symmetric], [extract_pad], [tee_network],
    [get_pads] and [run_pad_extraction], together with the part of
    scikit-rf's network algebra they call.

    Arithmetic is idealised: a numpy [complex128] is an exact complex
    number over the reals, or the single value [NonFinite] that stands for
    every value with an [inf] or [nan] component.  Rounding, overflow and
    signed zeros are not modelled there; the only source of [NonFinite] is
    a division by zero, which numpy answers with [inf]/[nan] and a
    warning, not an exception.  Where a property depends on rounding, the
    symmetrizer is also given over binary64 floats ([Binary64]), with
    numpy's order of additions and its division of a complex number by a
    real one.

    scikit-rf is not part of the repository.  Its conversions between
    scattering and impedance parameters and its Touchstone files are
    modelled from the specification, for two-ports with one real reference
    impedance.  [Network.inv] and the cascade [**] follow the library:
    [inv] is the de-embedding inverse (the inverse of the transfer matrix,
    not of the scattering matrix), and the cascade raises nothing at a
    point where its denominator vanishes. *)

From Stdlib Require Import Reals Lra Field ZArith.
From Stdlib Require Floats.
From stdpp Require Import base option list strings gmap pretty.

Set Default Proof Using "Type".

(** ** Complex numbers over the reals *)

Module Cplx.

Open Scope R_scope.

Definition C : Type := R * R.

Definition Re (z : C) : R := fst z.
Definition Im (z : C) : R := snd z.

Definition RtoC (x : R) : C := (x, 0).
Definition C0 : C := RtoC 0.
Definition C1 : C := RtoC 1.

Definition Cadd (x y : C) : C := (Re x + Re y, Im x + Im y).
Definition Copp (x : C) : C := (- Re x, - Im x).
Definition Csub (x y : C) : C := Cadd x (Copp y).
Definition Cmul (x y : C) : C :=
  (Re x * Re y - Im x * Im y, Re x * Im y + Im x * Re y).
Definition Cnorm2 (x : C) : R := Re x * Re x + Im x * Im x.
Definition Cinv (x : C) : C := (Re x / Cnorm2 x, - Im x / Cnorm2 x).
Definition Cdiv (x y : C) : C := Cmul x (Cinv y).
Definition Cmod (x : C) : R := sqrt (Cnorm2 x).

(** Principal branch of the square root, as [numpy.sqrt] on a complex
    array: non-negative real part, and the imaginary part carries the sign
    of the argument's imaginary part. *)
Definition Csqrt (x : C) : C :=
  (sqrt ((Cmod x + Re x) / 2),
   (if Rlt_dec (Im x) 0 then -1 else 1) * sqrt ((Cmod x - Re x) / 2)).

Declare Scope C_scope.
Delimit Scope C_scope with C.
Bind Scope C_scope with C.
Infix "+" := Cadd : C_scope.
Infix "-" := Csub : C_scope.
Infix "*" := Cmul : C_scope.
Infix "/" := Cdiv : C_scope.
Notation "- x" := (Copp x) : C_scope.
Notation "/ x" := (Cinv x) : C_scope.

Definition C2 : C := (C1 + C1)%C.

(** Equality of reals is decided by the classical [Req_dec_T]; numpy's
    test [x == 0] on a float. *)
Definition Ceq_dec (x y : C) : {x = y} + {x <> y}.
Proof.
  destruct x as [a b], y as [c d].
  destruct (Req_dec_T a c) as [->|Hac].
  - destruct (Req_dec_T b d) as [->|Hbd].
    + left; reflexivity.
    + right; intros [=]; contradiction.
  - right; intros [=]; contradiction.
Qed.

End Cplx.

(** ** numpy values and arrays *)

Module Numpy.
Import Cplx.

(** A [complex128]: a finite complex number, or a value with an [inf] or
    [nan] component.  Every operation of the pipeline maps [NonFinite]
    operands to [NonFinite]. *)
Inductive complex128 : Type :=
| Fin (z : C)
| NonFinite.

Definition lift1 (op : C -> C) (x : complex128) : complex128 :=
  match x with
  | Fin a => Fin (op a)
  | NonFinite => NonFinite
  end.

Definition lift2 (op : C -> C -> C) (x y : complex128) : complex128 :=
  match x, y with
  | Fin a, Fin b => Fin (op a b)
  | _, _ => NonFinite
  end.

Definition add : complex128 -> complex128 -> complex128 := lift2 Cadd.
Definition sub : complex128 -> complex128 -> complex128 := lift2 Csub.
Definition mul : complex128 -> complex128 -> complex128 := lift2 Cmul.
Definition neg : complex128 -> complex128 := lift1 Copp.
Definition sqrt : complex128 -> complex128 := lift1 Csqrt.

(** Division: a zero divisor gives [inf]/[nan] (and a RuntimeWarning),
    never an exception. *)
Definition div (x y : complex128) : complex128 :=
  match x, y with
  | Fin a, Fin b => if Ceq_dec b C0 then NonFinite else Fin (a / b)%C
  | _, _ => NonFinite
  end.

#[global] Arguments div : simpl never.

Definition of_R (x : R) : complex128 := Fin (RtoC x).
Definition of_Z (n : Z) : complex128 := of_R (IZR n).
Definition of_nat (n : nat) : complex128 := of_R (INR n).

(** [np.imag(x) >= 0].  On a [NonFinite] value the comparison may go either
    way in numpy; it is only ever used to choose between two values that
    are both [NonFinite] in that case. *)
Definition imag_ge0 (x : complex128) : bool :=
  match x with
  | Fin a => if Rle_dec 0 (Im a) then true else false
  | NonFinite => false
  end.

(** One element of [np.where(cond, a, b)]. *)
Definition where_ (cond : bool) (a b : complex128) : complex128 :=
  if cond then a else b.

Declare Scope np_scope.
Delimit Scope np_scope with np.
Bind Scope np_scope with complex128.
Infix "+" := add : np_scope.
Infix "-" := sub : np_scope.
Infix "*" := mul : np_scope.
Infix "/" := div : np_scope.
Notation "- x" := (neg x) : np_scope.

(** [np.mean] of a one-dimensional array, in exact arithmetic: the sum
    divided by the number of entries.  The order of the additions and the
    rounding of the division, which numpy performs as a multiplication by
    the rounded reciprocal, are those of [Binary64.mean]. *)
Definition sum (l : list complex128) : complex128 := foldr add (of_Z 0) l.
Definition mean (l : list complex128) : complex128 :=
  (sum l / of_nat (length l))%np.

(** Broadcasting of one-dimensional arrays: equal lengths combine
    pointwise, a length-1 array is stretched, anything else is a shape
    error. *)
Definition broadcast2 (op : complex128 -> complex128 -> complex128)
    (l1 l2 : list complex128) : option (list complex128) :=
  if decide (length l1 = length l2) then Some (zip_with op l1 l2)
  else match l1, l2 with
       | [x], _ => Some (op x <$> l2)
       | _, [y] => Some ((fun x => op x y) <$> l1)
       | _, _ => None
       end.

(** Assignment [z[:, r, c] = l] into a column of length [n]. *)
Definition assign (n : nat) (l : list complex128) : option (list complex128) :=
  if decide (length l = n) then Some l
  else match l with
       | [x] => Some (replicate n x)
       | _ => None
       end.

End Numpy.

(** ** Outcomes of a Python call *)

(** [InputError] covers missing files and shape or grid mismatches
    (OSError, ValueError, IndexError); [SingularMatrixError] is numpy's
    LinAlgError with the frequency index; [DegenerateModelError] is the
    error the specification names for the pad extraction; [TypeError] is
    Python's own, raised by a call with the wrong number of arguments. *)
Inductive error : Type :=
| InputError
| SingularMatrixError (i : nat)
| DegenerateModelError (i : nat)
| TypeError.

Inductive result (A : Type) : Type :=
| Returned (a : A)
| Raised (e : error).
Arguments Returned {A} a.
Arguments Raised {A} e.

#[global] Instance result_ret : MRet result := @Returned.
#[global] Instance result_bind : MBind result := fun A B k m =>
  match m with
  | Returned a => k a
  | Raised e => Raised e
  end.
#[global] Instance result_fmap : FMap result := fun A B g m =>
  match m with
  | Returned a => Returned (g a)
  | Raised e => Raised e
  end.

Definition of_option {A} (o : option A) (e : error) : result A :=
  match o with
  | Some a => Returned a
  | None => Raised e
  end.

(** A loop over the frequency axis that stops at the first error; [i] is
    the index of the head of the list. *)
Fixpoint mapM_idx {A B} (g : nat -> A -> result B) (i : nat) (l : list A)
    : result (list B) :=
  match l with
  | [] => Returned []
  | x :: l' => y ← g i x; ys ← mapM_idx g (S i) l'; Returned (y :: ys)
  end.

(** ** scikit-rf: networks and the network algebra *)

Module Skrf.
Import Cplx Numpy.

#[global] Instance R_eq_dec : EqDecision R := Req_dec_T.

(** An N-by-N matrix at one frequency point, as rows. *)
Abbreviation matrix := (list (list complex128)).

(** [rf.Network]: the frequency grid [f] (Hz), one scattering matrix per
    frequency point [s], and the reference impedance [z0] (one real value
    for all ports and frequencies, as in a Touchstone file and as
    [pads.py] passes it). *)
Module Network.
Record t : Type := mk { f : list R; s : list matrix; z0 : R }.
End Network.

(** Entry [m[r, c]]; out of range cannot happen on an N-by-N matrix. *)
Definition mat_get (m : matrix) (r c : nat) : complex128 :=
  default NonFinite (row ← m !! r; row !! c).

(** [m.T] for a square matrix. *)
Definition transpose (m : matrix) : matrix :=
  imap (fun r row => imap (fun c _ => mat_get m c r) row) m.

(** [np.diag(m)] and [np.fill_diagonal(m, v)]. *)
Definition diag (m : matrix) : list complex128 :=
  imap (fun r row => default NonFinite (row !! r)) m.
Definition fill_diagonal (m : matrix) (v : complex128) : matrix :=
  imap (fun r row => <[r := v]> row) m.

Definition square (n : nat) (m : matrix) : Prop :=
  length m = n /\ Forall (fun row => length row = n) m.

(** Every frequency point carries a square matrix of one size, as the
    array shape [(n_freq, n_ports, n_ports)] guarantees. *)
Definition Network_wf (net : Network.t) : Prop :=
  exists n, Forall (square n) (Network.s net).

(** A matrix is reciprocal and symmetric when it equals its transpose and
    one value fills its diagonal. *)
Definition reciprocal_symmetric (m : matrix) : Prop :=
  transpose m = m /\ exists d, diag m = replicate (length m) d.

(** An entrywise map that sees the row and column index. *)
Definition imap2 (g : nat -> nat -> complex128 -> complex128) (m : matrix)
    : matrix :=
  imap (fun r row => imap (g r) row) m.

(** The two-port case. *)
Record mat2 : Type := Mat2 { m11 : complex128; m12 : complex128;
                             m21 : complex128; m22 : complex128 }.

Definition to_matrix (p : mat2) : matrix :=
  [[m11 p; m12 p]; [m21 p; m22 p]].

Definition as_mat2 (m : matrix) : option mat2 :=
  match m with
  | [[a; b]; [c; d]] => Some (Mat2 a b c d)
  | _ => None
  end.

(** Ports 1 and 2 exchanged. *)
Definition swap_ports (p : mat2) : mat2 :=
  Mat2 (m22 p) (m21 p) (m12 p) (m11 p).

(** The same on the rows and columns of a matrix, and on a network. *)
Definition swap_ports_matrix (m : matrix) : matrix := reverse (reverse <$> m).

Definition Network_swap_ports (net : Network.t) : Network.t :=
  Network.mk (Network.f net) (swap_ports_matrix <$> Network.s net)
             (Network.z0 net).

(** The network with every scattering matrix transposed (the same device
    driven backwards through every path). *)
Definition Network_transpose (net : Network.t) : Network.t :=
  Network.mk (Network.f net) (transpose <$> Network.s net) (Network.z0 net).

Definition is_zero (x : complex128) : bool :=
  match x with
  | Fin a => if Ceq_dec a C0 then true else false
  | NonFinite => false
  end.

Local Open Scope np_scope.

(** Modelled from the spec: [scatteringToImpedance] (scikit-rf's [s2z],
    not part of this repository), the bilinear transform
    [Z = z0 (I - S)^-1 (I + S)] written out for a two-port; it fails with
    [SingularMatrixError] at the frequency index where [I - S] has no
    inverse. *)
Definition s2z_point (z0 : R) (i : nat) (S : mat2) : result mat2 :=
  let one := of_Z 1 in
  let det := (one - m11 S) * (one - m22 S) - m12 S * m21 S in
  if is_zero det then Raised (SingularMatrixError i)
  else Returned
    (Mat2 (of_R z0 * ((one + m11 S) * (one - m22 S) + m12 S * m21 S) / det)
          (of_R z0 * (of_Z 2 * m12 S) / det)
          (of_R z0 * (of_Z 2 * m21 S) / det)
          (of_R z0 * ((one - m11 S) * (one + m22 S) + m12 S * m21 S) / det)).

(** Modelled from the spec: the inverse transform (scikit-rf's [z2s], not
    part of this repository), [S = (Z - z0 I) (Z + z0 I)^-1] written out
    for a two-port; it fails with [SingularMatrixError] where [Z + z0 I]
    has no inverse. *)
Definition z2s_point (z0 : R) (i : nat) (Z : mat2) : result mat2 :=
  let r := of_R z0 in
  let det := (m11 Z + r) * (m22 Z + r) - m12 Z * m21 Z in
  if is_zero det then Raised (SingularMatrixError i)
  else Returned
    (Mat2 (((m11 Z - r) * (m22 Z + r) - m12 Z * m21 Z) / det)
          (of_Z 2 * r * m12 Z / det)
          (of_Z 2 * r * m21 Z / det)
          (((m11 Z + r) * (m22 Z - r) - m12 Z * m21 Z) / det)).


(** Modelled from scikit-rf: [Network.inv] (not part of this repository),
    the de-embedding inverse [t2s(inv(s2t(S)))]: the two-port whose
    transfer matrix is the inverse of the transfer matrix of [S], so that
    its cascade with [S] is a through.  Written out,
    [S' = [[S11, -S21], [-S12, S22]] / det S].  The three matrix inversions
    on the way (of [S21], of the transfer matrix, whose determinant is
    [S12 / S21], and of its last entry [- det S / S12]) raise numpy's
    LinAlgError where they are singular. *)
Definition inv_point (i : nat) (S : mat2) : result mat2 :=
  let det := m11 S * m22 S - m12 S * m21 S in
  if is_zero (m21 S) || is_zero (m12 S) || is_zero det
  then Raised (SingularMatrixError i)
  else Returned (Mat2 (m11 S / det) (- m21 S / det)
                      (- m12 S / det) (m22 S / det)).

(** Modelled from scikit-rf: [A ** B] at one frequency point (not part of
    this repository), port 2 of [A] connected to port 1 of [B] by the
    two-port scattering cascading formula with its multiple-reflection
    term [1 - A22 B11].  Nothing is raised: where that term is zero the
    divisions give non-finite entries. *)
Definition cascade_point (A B : mat2) : mat2 :=
  let det := of_Z 1 - m22 A * m11 B in
  Mat2 (m11 A + m12 A * m11 B * m21 A / det)
       (m12 A * m12 B / det)
       (m21 A * m21 B / det)
       (m22 B + m21 B * m22 A * m12 B / det).

Local Close Scope np_scope.

(** The conversions and the cascade are modelled for two-ports, the
    networks the pipeline is run on.  A matrix of another size is outside
    the model, which stops there with [InputError]; [extract_pad] itself
    makes no such check, it reads the entries [0,0] and [1,0] of whatever
    impedance array [net.z] gives. *)
Definition two_port (m : matrix) : result mat2 :=
  of_option (as_mat2 m) InputError.

(** Modelled from the spec: [net.z], the impedance parameters of a
    network, [scatteringToImpedance] at every frequency point. *)
Definition Network_z (net : Network.t) : result (list mat2) :=
  mapM_idx (fun i m => S ← two_port m; s2z_point (Network.z0 net) i S)
           0 (Network.s net).

(** Modelled from the spec: [rf.Network(frequency=f, z=z, z0=z0)]; the
    scattering matrix is computed from the impedance array [z] on
    construction. *)
Definition Network_from_z (f : list R) (z : list mat2) (z0 : R)
    : result Network.t :=
  S ← mapM_idx (z2s_point z0) 0 z;
  Returned (Network.mk f (to_matrix <$> S) z0).

(** Modelled from scikit-rf: [net.inv], the de-embedding inverse at every
    frequency point; grid and reference impedance are kept. *)
Definition Network_inv (net : Network.t) : result Network.t :=
  S ← mapM_idx (fun i m => S ← two_port m; inv_point i S) 0 (Network.s net);
  Returned (Network.mk (Network.f net) (to_matrix <$> S) (Network.z0 net)).


(** Modelled from scikit-rf: [A ** B], [cascade_point] at every frequency
    point; it requires matching frequency grids (and, with them, as many
    frequency points) and fails with [InputError] on a mismatch. *)
Definition cascade (A B : Network.t) : result Network.t :=
  if decide (Network.f A = Network.f B
             /\ length (Network.s A) = length (Network.s B)) then
    S ← mapM_idx (fun i ab => a ← two_port ab.1; b ← two_port ab.2;
                              Returned (cascade_point a b))
                 0 (zip (Network.s A) (Network.s B));
    Returned (Network.mk (Network.f A) (to_matrix <$> S) (Network.z0 A))
  else Raised InputError.

(** The files on disk: Touchstone name to the network it carries. *)
Abbreviation files := (gmap string Network.t).

(** Modelled from the spec: [rf.Network(file)], the Touchstone reader; a
    missing file is an [InputError]. *)
Definition load (fs : files) (file : string) : result Network.t :=
  of_option (fs !! file) InputError.

(** Modelled from the spec: [net.write_touchstone(name)], the Touchstone
    writer; a two-port is written to [name.s2p]. *)
Definition write_touchstone (net : Network.t) (name : string) (fs : files)
    : files :=
  <[ name +:+ ".s2p" := net ]> fs.

End Skrf.

(** ** pads.py *)

Module Pads.
Import Cplx Numpy Skrf.

Local Open Scope np_scope.

(** [(s[i] + s[i].T) / 2] *)
Definition mat_add (a b : matrix) : matrix := zip_with (zip_with add) a b.
Definition mat_div (a : matrix) (d : complex128) : matrix :=
  (fun row : list complex128 => (fun x => x / d) <$> row) <$> a.
Definition reciprocal (m : matrix) : matrix :=
  mat_div (mat_add m (transpose m)) (of_Z 2).

(** Entry [(r, c)] after both loops, from the entry [x] before them:
    the diagonal holds [avg], the rest the mean of [x] and its mirror. *)
Definition entry (m : matrix) (avg : complex128) (r c : nat) (x : complex128)
    : complex128 :=
  if decide (c = r) then avg else (x + mat_get m c r) / of_Z 2.

(** [avg_diag = np.mean(np.diag(s[i])); np.fill_diagonal(s[i], avg_diag)] *)
Definition average_diagonal (m : matrix) : matrix :=
  let avg_diag := mean (diag m) in
  fill_diagonal m avg_diag.

(** [enforce_reciprocal_symmetric]: the two loops over the frequency
    points, on a copy of [network.s]. *)
Definition enforce_reciprocal_symmetric (network : Network.t) : Network.t :=
  let s := Network.s network in
  let s := reciprocal <$> s in
  let s := average_diagonal <$> s in
  Network.mk (Network.f network) s (Network.z0 network).

(** The body of [extract_pad] at one frequency point.  The source computes
    on whole arrays; every operation in it is elementwise. *)
Definition extract_point (Z11 Z21 : complex128)
    : complex128 * complex128 * complex128 :=
  let k := - (Z21 * Z21) / (of_Z (-1) * (of_Z 2 * Z21 * Z11 + Z21 * Z21)) in
  let a := of_Z 1 in
  let b := of_Z (-2) * (Z11 + Z21 * k) in
  let c := Z11 * Z11 - Z21 * Z21 in
  let disc := b * b - of_Z 4 * a * c in
  let x1 := (of_Z (-1) * b + sqrt disc) / (of_Z 2 * a) in
  let x2 := (of_Z (-1) * b - sqrt disc) / (of_Z 2 * a) in
  let Z1 := where_ (imag_ge0 x1) x1 x2 in
  let Z2 := Z11 + Z21 - Z1 in
  let Z3 := k * Z1 in
  (Z1, Z2, Z3).

(** The intermediate arrays of [extract_pad] by name: the closure constant
    [k], its denominator, and the two roots [x1], [x2]. *)
Definition closure_denominator (Z11 Z21 : complex128) : complex128 :=
  of_Z (-1) * (of_Z 2 * Z21 * Z11 + Z21 * Z21).

Definition closure_k (Z11 Z21 : complex128) : complex128 :=
  - (Z21 * Z21) / closure_denominator Z11 Z21.

Definition quadratic_roots (Z11 Z21 : complex128) : complex128 * complex128 :=
  let k := closure_k Z11 Z21 in
  let a := of_Z 1 in
  let b := of_Z (-2) * (Z11 + Z21 * k) in
  let c := Z11 * Z11 - Z21 * Z21 in
  let disc := b * b - of_Z 4 * a * c in
  ((of_Z (-1) * b + sqrt disc) / (of_Z 2 * a),
   (of_Z (-1) * b - sqrt disc) / (of_Z 2 * a)).

(** The same quantities on finite values, where the denominator of [k] is
    not zero. *)
Module Finite.
Section Point.
Variables z11 z21 : C.
Local Open Scope C_scope.

Definition den : C := RtoC (-1) * (RtoC 2 * z21 * z11 + z21 * z21).
Definition k : C := - (z21 * z21) / den.
Definition b : C := RtoC (-2) * (z11 + z21 * k).
Definition c : C := z11 * z11 - z21 * z21.
Definition disc : C := b * b - RtoC 4 * RtoC 1 * c.
Definition x1 : C := (RtoC (-1) * b + Csqrt disc) / (RtoC 2 * RtoC 1).
Definition x2 : C := (RtoC (-1) * b - Csqrt disc) / (RtoC 2 * RtoC 1).
Definition Z1 : C := if Rle_dec 0 (Im x1) then x1 else x2.
Definition Z2 : C := z11 + z21 - Z1.
Definition Z3 : C := k * Z1.

End Point.
End Finite.

(** The extraction at one frequency point of the impedance array: it reads
    [Z[:, 0, 0]] and [Z[:, 1, 0]]. *)
Definition point_of (p : mat2) : complex128 * complex128 * complex128 :=
  extract_point (m11 p) (m21 p).

(** [extract_pad(net)]: returns [(f, Z1, Z2, Z3)]. *)
Definition extract_pad (net : Network.t)
    : result (list R * list complex128 * list complex128 * list complex128) :=
  Z ← Network_z net;
  let Z11 := m11 <$> Z in
  let Z21 := m21 <$> Z in
  let f := Network.f net in
  let pts := zip_with extract_point Z11 Z21 in
  Returned (f, (fun p => p.1.1) <$> pts, (fun p => p.1.2) <$> pts,
            (fun p => p.2) <$> pts).

(** The array [z] that [tee_network] fills: four columns of length
    [n = len(freqs_hz)]. *)
Definition tee_z (n : nat) (Z1 Z2 Z3 : list complex128) : option (list mat2) :=
  z00 ← broadcast2 add Z1 Z2 ≫= assign n;
  z01 ← assign n Z2;
  z10 ← assign n Z2;
  z11 ← broadcast2 add Z2 Z3 ≫= assign n;
  Some (zip_with (fun ab cd => Mat2 ab.1 ab.2 cd.1 cd.2)
                 (zip z00 z01) (zip z10 z11)).

(** The same array for finite lists of the grid's length, point by
    point. *)
Definition tee_point (z1 z2 z3 : C) : mat2 :=
  Mat2 (Fin (z1 + z2)%C) (Fin z2) (Fin z2) (Fin (z2 + z3)%C).

Fixpoint tee_points (Z1 Z2 Z3 : list C) : list mat2 :=
  match Z1, Z2, Z3 with
  | z1 :: Z1, z2 :: Z2, z3 :: Z3 => tee_point z1 z2 z3 :: tee_points Z1 Z2 Z3
  | _, _, _ => []
  end.

(** [tee_network(freqs_hz, Z1, Z2, Z3, Z0)] *)
Definition tee_network (freqs_hz : list R) (Z1 Z2 Z3 : list complex128)
    (Z0 : R) : result Network.t :=
  let f := freqs_hz in
  let n := length freqs_hz in
  z ← of_option (tee_z n Z1 Z2 Z3) InputError;
  Network_from_z f z Z0.

(** The module-level variables [year] and [length] that [get_pads] reads. *)
Module Globals.
Record t : Type := mk { year : Z; length : Z }.
End Globals.

Definition left_pad_name (g : Globals.t) : string :=
  "left_pad_" +:+ pretty (Globals.year g) +:+ "_" +:+ pretty (Globals.length g).
Definition right_pad_name (g : Globals.t) : string :=
  "right_pad_" +:+ pretty (Globals.year g) +:+ "_" +:+ pretty (Globals.length g).

(** [pads = L_line ** L2_line.inv ** L_line].  [**] associates to the
    right in Python, so this is [L_line ** (L2_line.inv ** L_line)]; the
    operands are evaluated first, left to right. *)
Definition pads_composite (L_line L2_line : Network.t) : result Network.t :=
  L2_inv ← Network_inv L2_line;
  inner ← cascade L2_inv L_line;
  cascade L_line inner.

(** The same three operands cascaded from the left,
    [(L_line ** L2_line.inv) ** L_line]. *)
Definition pads_composite_left (L_line L2_line : Network.t)
    : result Network.t :=
  L2_inv ← Network_inv L2_line;
  inner ← cascade L_line L2_inv;
  cascade inner L_line.


(** The body of [get_pads] up to the two synthesized networks; no file
    has been written yet. *)
Definition get_pads_networks (fs : files) (file1 file2 : string)
    : result (Network.t * Network.t) :=
  L_line ← load fs file1;
  L2_line ← load fs file2;
  pads ← pads_composite L_line L2_line;
  '(f, Z1, Z2, Z3) ← extract_pad (enforce_reciprocal_symmetric pads);
  left_pad ← tee_network f Z1 Z2 Z3 50;
  right_pad ← tee_network f Z3 Z2 Z1 50;
  Returned (left_pad, right_pad).

(** [get_pads(file1, file2)]: the result and the files afterwards. *)
Definition get_pads (g : Globals.t) (file1 file2 : string) (fs : files)
    : result (Network.t * Network.t) * files :=
  match get_pads_networks fs file1 file2 with
  | Returned (left_pad, right_pad) =>
      let fs := write_touchstone left_pad (left_pad_name g) fs in
      let fs := write_touchstone right_pad (right_pad_name g) fs in
      (Returned (left_pad, right_pad), fs)
  | Raised e => (Raised e, fs)
  end.

(** A Python value passed as a positional argument. *)
Inductive pyobj : Type :=
| PyStr (s : string)
| PyInt (n : Z).

(** A call of [get_pads] with positional arguments: it is defined with two
    parameters, any other number of arguments raises TypeError before the
    body runs. *)
Definition call_get_pads (g : Globals.t) (args : list pyobj) (fs : files)
    : result (Network.t * Network.t) * files :=
  match args with
  | [PyStr file1; PyStr file2] => get_pads g file1 file2 fs
  | [_; _] => (Raised InputError, fs)
  | _ => (Raised TypeError, fs)
  end.

(** [run_pad_extraction(file1, file2, year, length)] *)
Definition run_pad_extraction (g : Globals.t) (file1 file2 : string)
    (year length : Z) (fs : files)
    : result (Network.t * Network.t) * files :=
  call_get_pads g [PyStr file1; PyStr file2; PyInt year; PyInt length] fs.

(** The [__main__] block after [int(sys.argv[3])] and [int(sys.argv[4])]:
    the assignments to [year] and [length] are module-level, then the two
    values returned are printed, one per line.  The result is the list of
    objects printed. *)
Definition main (file1 file2 : string) (year length : Z) (fs : files)
    : result (list Network.t) * files :=
  let g := Globals.mk year length in
  match run_pad_extraction g file1 file2 year length fs with
  | (Returned (left_name, right_name), fs) =>
      (Returned [left_name; right_name], fs)
  | (Raised e, fs) => (Raised e, fs)
  end.

(** [f'{year}_{length}.s2p'] *)
Definition sample_file (year length : Z) : string :=
  pretty year +:+ "_" +:+ pretty length +:+ ".s2p".

(** What running [pads.py] as a script does on a command line with two
    file names and two integers: the module-level statements (two
    extractions for the sample files of year 2015, lengths 600 and 300)
    run first, then the [__main__] block.  [script_argv] below starts
    from the raw command line. *)
Definition script (file1 file2 : string) (year length : Z) (fs : files)
    : result (list Network.t) * files :=
  let g := Globals.mk 2015 600 in
  match get_pads g (sample_file 2015 600) (sample_file 2015 (2 * 600)) fs with
  | (Raised e, fs) => (Raised e, fs)
  | (Returned _, fs) =>
      let g := Globals.mk 2015 300 in
      match get_pads g (sample_file 2015 300) (sample_file 2015 (2 * 300)) fs with
      | (Raised e, fs) => (Raised e, fs)
      | (Returned _, fs) => main file1 file2 year length fs
      end
  end.

(** The first four statements of the [__main__] block:
    [file1 = sys.argv[1]], [file2 = sys.argv[2]],
    [year = int(sys.argv[3])], [length = int(sys.argv[4])].  A missing
    argument raises IndexError and a non-numeric one ValueError; [None]
    stands for either.  [int] is Python's [int] on a string, [None] where
    it raises ValueError. *)
Definition parse_argv (int : string -> option Z) (argv : list string)
    : option (string * string * Z * Z) :=
  file1 ← argv !! 1%nat;
  file2 ← argv !! 2%nat;
  year ← argv !! 3%nat ≫= int;
  length ← argv !! 4%nat ≫= int;
  Some (file1, file2, year, length).

(** The [__main__] block on the command line [argv] ([sys.argv], the
    script name first): IndexError and ValueError count as [InputError]. *)
Definition main_argv (int : string -> option Z) (argv : list string)
    (fs : files) : result (list Network.t) * files :=
  match parse_argv int argv with
  | Some (file1, file2, year, length) => main file1 file2 year length fs
  | None => (Raised InputError, fs)
  end.

(** Running [pads.py] on the command line [argv]: the module-level
    statements, then the [__main__] block. *)
Definition script_argv (int : string -> option Z) (argv : list string)
    (fs : files) : result (list Network.t) * files :=
  let g := Globals.mk 2015 600 in
  match get_pads g (sample_file 2015 600) (sample_file 2015 (2 * 600)) fs with
  | (Raised e, fs) => (Raised e, fs)
  | (Returned _, fs) =>
      let g := Globals.mk 2015 300 in
      match get_pads g (sample_file 2015 300) (sample_file 2015 (2 * 300)) fs with
      | (Raised e, fs) => (Raised e, fs)
      | (Returned _, fs) => main_argv int argv fs
      end
  end.

(** Relative closeness of two complex numbers, as a tolerance test of a
    computed value [x] against the expected [y]. *)
Definition within_rtol (tol : R) (x y : C) : Prop :=
  (Cmod (x - y)%C <= tol * Cmod y)%R.

Definition close_to (tol : R) (x : complex128) (y : C) : Prop :=
  match x with
  | Fin a => within_rtol tol a y
  | NonFinite => False
  end.

(** All entries of a network are finite numbers. *)
Definition is_Fin (x : complex128) : Prop :=
  match x with
  | Fin _ => True
  | NonFinite => False
  end.

Definition finite_mat2 (p : mat2) : Prop :=
  is_Fin (m11 p) /\ is_Fin (m12 p) /\ is_Fin (m21 p) /\ is_Fin (m22 p).

Definition Network_finite (net : Network.t) : Prop :=
  Forall (Forall (Forall is_Fin)) (Network.s net).

(** A two-port with a single frequency point, for the examples. *)
Definition single_point (f z0 : R) (s11 s12 s21 s22 : C) : Network.t :=
  Network.mk [f] [to_matrix (Mat2 (Fin s11) (Fin s12) (Fin s21) (Fin s22))] z0.

Local Close Scope np_scope.

End Pads.

(** ** enforce_reciprocal_symmetric in binary64

    The same function on the numbers numpy computes with: a [complex128]
    is a pair of binary64 floats, and every operation rounds.  It is used
    where exact arithmetic would hide what the code does. *)

Module Binary64.
Import PrimFloat.
Local Open Scope float_scope.

Definition c128 : Type := float * float.

Definition add (x y : c128) : c128 := (x.1 + y.1, x.2 + y.2).

(** [x / n] for a divisor with zero imaginary part, as numpy's complex
    division computes it: with [rat = 0 / n] and
    [scl = 1 / (n + 0 * rat)], the quotient is
    [((re + im * rat) * scl, (im - re * rat) * scl)]; the numerator is
    multiplied by the rounded reciprocal of [n]. *)
Definition div_real (x : c128) (n : float) : c128 :=
  let rat := 0 / n in
  let scl := 1 / (n + 0 * rat) in
  ((x.1 + x.2 * rat) * scl, (x.2 - x.1 * rat) * scl).

Definition of_nat (n : nat) : float := of_uint63 (Uint63.of_Z (Z.of_nat n)).

Abbreviation matrix := (list (list c128)).

Definition mat_get (m : matrix) (r c : nat) : c128 :=
  default (nan, nan) (row ← m !! r; row !! c).

Definition transpose (m : matrix) : matrix :=
  imap (fun r row => imap (fun c _ => mat_get m c r) row) m.

Definition diag (m : matrix) : list c128 :=
  imap (fun r row => default (nan, nan) (row !! r)) m.

Definition fill_diagonal (m : matrix) (v : c128) : matrix :=
  imap (fun r row => <[r := v]> row) m.

(** [np.add.reduce] on fewer than nine entries: the first entry plus the
    running sum, started at [-0.0], of the others. *)
Definition sum (l : list c128) : c128 :=
  match l with
  | [] => (0, 0)
  | x :: l' => add x (fold_left add l' (-0, -0))
  end.

(** [np.mean]: the sum divided by the number of entries. *)
Definition mean (l : list c128) : c128 :=
  div_real (sum l) (of_nat (length l)).

(** [(s[i] + s[i].T) / 2] *)
Definition reciprocal (m : matrix) : matrix :=
  (fun row : list c128 => (fun x => div_real x 2) <$> row)
    <$> zip_with (zip_with add) m (transpose m).

(** [avg_diag = np.mean(np.diag(s[i])); np.fill_diagonal(s[i], avg_diag)] *)
Definition average_diagonal (m : matrix) : matrix :=
  let avg_diag := mean (diag m) in
  fill_diagonal m avg_diag.

(** [enforce_reciprocal_symmetric] on the array [network.s]; the grid and
    the reference impedance are passed on as they are. *)
Definition enforce_reciprocal_symmetric (s : list matrix) : list matrix :=
  let s := reciprocal <$> s in
  average_diagonal <$> s.



#[local] Set Warnings "-inexact-float".


(** A two-port at two frequency points, neither reciprocal nor
    symmetric, with entries that are not binary fractions. *)
Definition lossy_two_port : list matrix :=
  [ [ [(0.1, -0.3); (0.7, 0.2)];
      [(0.6, 0.1); (0.167, -0.005)] ];
    [ [(-0.2, 0.9); (0.3, -0.4)];
      [(0.1, 0.3); (0.005, 0.7)] ] ].

End Binary64.

(** ** frontend.py *)

Module Frontend.
Import Skrf Pads.

(** The attributes of [PadExtractorGUI] that [run_backend] reads: the
    three selected paths ([None] until the user has picked one) and the
    text of the two line edits. *)
Record t : Type := mk {
  file1_path : option string;
  file2_path : option string;
  output_dir : option string;
  year_input : string;
  length_input : string
}.

(** The message box a slot shows: [QMessageBox.warning] or
    [QMessageBox.information], with title and text. *)
Inductive dialog : Type :=
| warning (title text : string)
| information (title text : string).

(** [subprocess.CompletedProcess] with captured text output. *)
Record CompletedProcess : Type := Completed {
  returncode : Z;
  stdout : string;
  stderr : string
}.

(** A path that passes the test [not self.path]: neither [None] nor the
    empty string. *)
Definition selected (path : option string) : option string :=
  match path with
  | Some p => if decide (p = "") then None else Some p
  | None => None
  end.

Definition newline : string := String (Ascii.ascii_of_nat 10) "".

(** The interpreter that [run_backend] starts. *)
Definition python_exe : string :=
  "C:\Users\User\AppData\Local\Programs\Python\Python311\python.exe".

Section Backend.

(** [int(text)]; [None] when it raises ValueError. *)
Variable int : string -> option Z.
(** [subprocess.run(args, capture_output=True, text=True)]: it returns
    the completed process, or raises OSError when the program cannot be
    started (FileNotFoundError for a missing interpreter). *)
Variable run : list string -> files -> result CompletedProcess * files.
(** [stdout.strip().splitlines()] *)
Variable lines : string -> list string.
(** [os.path.join] and [os.rename]; the latter may raise OSError. *)
Variable join : string -> string -> string.
Variable rename : string -> string -> files -> result files.

(** [if os.path.exists(name): os.rename(name, out)] *)
Definition move_if_exists (name out : string) (fs : files) : result files :=
  if bool_decide (is_Some (fs !! name)) then rename name out fs
  else Returned fs.

(** [run_backend]: the message box shown (or the exception that escapes
    the slot) and the files afterwards. *)
Definition run_backend (self : t) (fs : files) : result dialog * files :=
  match selected (file1_path self), selected (file2_path self),
        selected (output_dir self) with
  | Some file1, Some file2, Some output_dir =>
      match int (year_input self), int (length_input self) with
      | Some year, Some length =>
          match run [python_exe; "pads.py"; file1; file2;
                     pretty year; pretty length] fs with
          | (Raised e, fs) => (Raised e, fs)
          | (Returned result, fs) =>
              if decide (returncode result <> 0%Z) then
                (Returned (warning "Error" (stderr result)), fs)
              else
                match lines (stdout result) with
                | left_name :: right_name :: _ =>
                    let left_out := join output_dir left_name in
                    let right_out := join output_dir right_name in
                    match move_if_exists left_name left_out fs with
                    | Raised e => (Raised e, fs)
                    | Returned fs1 =>
                        match move_if_exists right_name right_out fs1 with
                        | Raised e => (Raised e, fs1)
                        | Returned fs2 =>
                            (Returned
                               (information "Success"
                                  ("PAD extraction completed!" +:+ newline
                                   +:+ "Saved to:" +:+ newline +:+ left_out
                                   +:+ newline +:+ right_out)), fs2)
                        end
                    end
                | _ =>
                    (Returned
                       (warning "Error" "Backend did not return valid output."),
                     fs)
                end
          end
      | _, _ =>
          (Returned (warning "Error" "Year and Length must be numbers."), fs)
      end
  | _, _, _ =>
      (Returned
         (warning "Error" "Please select both files and an output directory."),
       fs)
  end.

End Backend.

(** [subprocess.run] on a command line whose program is the Python
    interpreter and whose script is [pads.py], seen from the parent.
    When the interpreter is not [installed] at that path, OSError is
    raised in the parent and nothing has run.  Otherwise the child runs
    the script on the remaining arguments: exit status 0 and the printed
    lines when it ends normally, status 1 and the traceback on stderr when
    an exception escapes.  [str] is the text [print] writes for a network,
    [traceback] the text of the interpreter's error report, [int] the
    child's [int]. *)
Definition pads_process (installed : bool) (int : string -> option Z)
    (str : Network.t -> string) (traceback : error -> string)
    (args : list string) (fs : files) : result CompletedProcess * files :=
  match args with
  | _ :: argv =>
      if installed then
        match script_argv int argv fs with
        | (Returned printed, fs) =>
            (Returned
               (Completed 0
                  (foldr (fun x out => str x +:+ newline +:+ out) "" printed)
                  ""), fs)
        | (Raised e, fs) => (Returned (Completed 1 "" (traceback e)), fs)
        end
      else (Raised InputError, fs)
  | [] => (Raised InputError, fs)
  end.

End Frontend.

(** ** Sample inputs *)

Module Examples.
Import Cplx Numpy Skrf Pads.
Open Scope R_scope.

(** One frequency point at 1 GHz. *)
Definition f0 : R := 1000000000.

(** A matched, isolated two-port: [S = 0], so [Z21 = 0]. *)
Definition isolated : Network.t := single_point f0 50 C0 C0 C0 C0.

(** A passive, reciprocal, symmetric two-port with a capacitive
    reflection: [S11 = S22 = -0.6j], [S21 = S12 = 0.2]. *)
Definition capacitive : Network.t :=
  single_point f0 50 (0, -3/5) (1/5, 0) (1/5, 0) (0, -3/5).

(** Two measurements: the line of length [L] and the line of length [2L]. *)
Definition short_line : Network.t :=
  single_point f0 50 (-2/3, 0) (1/3, 0) (1/3, 0) (-2/3, 0).
Definition long_line : Network.t :=
  single_point f0 50 (-2/5, 0) (3/5, 0) (3/5, 0) (-2/5, 0).

(** A pair whose long measurement is not symmetric, so that its
    de-embedding inverse is not its matrix inverse. *)
Definition short_b : Network.t :=
  single_point f0 50 (1/2, 0) (1/2, 0) (1/2, 0) (-1/2, 0).
Definition long_b : Network.t :=
  single_point f0 50 (0, 0) (1/2, 0) (1/2, 0) (1/2, 0).

(** The two sample files that [pads.py] names at module level for
    year 2015 and length 600. *)
Definition sample_files : files :=
  <[ "2015_600.s2p" := short_line ]> (<[ "2015_1200.s2p" := long_line ]> ∅).

(** The pads extracted from them. *)
Definition left_pad : Network.t :=
  single_point f0 50 (-11/20, 0) (-3/20, 0) (-3/20, 0) (-19/20, 0).
Definition right_pad : Network.t :=
  single_point f0 50 (-19/20, 0) (-3/20, 0) (-3/20, 0) (-11/20, 0).

(** A symmetric tee with a lossy inductive series arm and a capacitive
    shunt: [Z1 = Z3 = 50 + 200j], [Z2 = -150j]. *)
Definition tee_Z1 : C := (50, 200).
Definition tee_Z2 : C := (0, -150).
Definition tee_Z3 : C := (50, 200).

(** The network that [tee_network] builds from it at 50 ohm. *)
Definition tee_pad : Network.t :=
  single_point f0 50 (13/20, -1/20) (-3/20, -9/20) (-3/20, -9/20)
               (13/20, -1/20).

(** The composites of the two pairs of measurements. *)
Definition composite : Network.t :=
  single_point f0 50 (-10/13, 0) (3/13, 0) (3/13, 0) (-10/13, 0).
Definition composite_b : Network.t :=
  single_point f0 50 (2/3, 0) (1/6, 0) (1/6, 0) (-5/6, 0).

(** A three-port with unequal reflections and non-reciprocal couplings,
    at two frequency points. *)
Definition three_port : Network.t :=
  Network.mk [f0; 2 * f0]
    [ [ [Fin (1, 0); Fin (2, 1); Fin (0, 0)];
        [Fin (4, 0); Fin (3, 0); Fin (0, 1)];
        [Fin (0, 0); Fin (0, 3); Fin (5, 0)] ];
      [ [Fin (0, 0); Fin (1, 0); Fin (2, 2)];
        [Fin (0, 0); Fin (0, 0); Fin (0, 1)];
        [Fin (1, 1); Fin (0, 0); Fin (0, 0)] ] ]
    50.

End Examples.

(** * Properties *)

(** ** The complex field *)

Module CplxFacts.
Import Cplx.
Open Scope R_scope.

Lemma C_eq (x y : C) : Re x = Re y -> Im x = Im y -> x = y.
Proof. destruct x, y; simpl; intros; subst; reflexivity. Qed.

Lemma C_neq_0 (x : C) : x <> C0 -> Cnorm2 x <> 0.
Proof.
  intros Hx Hn. apply Hx. unfold Cnorm2 in Hn.
  apply C_eq; simpl; nra.
Qed.

Lemma C_ring_theory : ring_theory C0 C1 Cadd Cmul Csub Copp eq.
Proof.
  split; intros; apply C_eq; unfold Csub, Cadd, Cmul, Copp, C0, C1, RtoC;
    simpl; ring.
Qed.

Lemma C1_neq_C0 : C1 <> C0.
Proof. intros [= H]. lra. Qed.

Lemma Cinv_l (x : C) : x <> C0 -> (/ x * x)%C = C1.
Proof.
  intros Hx. pose proof (C_neq_0 x Hx) as Hn.
  apply C_eq; unfold Cmul, Cinv, C1, RtoC; simpl;
    unfold Cnorm2 in *; field; exact Hn.
Qed.

Lemma C_field_theory :
  field_theory C0 C1 Cadd Cmul Csub Copp Cdiv Cinv eq.
Proof.
  split.
  - exact C_ring_theory.
  - exact C1_neq_C0.
  - reflexivity.
  - exact Cinv_l.
Qed.

Add Field C_field : C_field_theory.

Lemma Cmul_integral (x y : C) : (x * y)%C = C0 -> x = C0 \/ y = C0.
Proof.
  intros H. destruct (Ceq_dec x C0) as [|Hx]; [left; assumption|right].
  transitivity (/ x * (x * y))%C.
  - field. exact Hx.
  - rewrite H. ring.
Qed.

Lemma Cmul_neq_0 (x y : C) : x <> C0 -> y <> C0 -> (x * y)%C <> C0.
Proof. intros Hx Hy H. destruct (Cmul_integral _ _ H); contradiction. Qed.

Lemma C2_neq_0 : C2 <> C0.
Proof. intros [= H]. lra. Qed.

Lemma RtoC_neq_0 (x : R) : x <> 0 -> RtoC x <> C0.
Proof. intros Hx [= H]. contradiction. Qed.

Lemma RtoC_2 : RtoC 2 = C2.
Proof. apply C_eq; simpl; lra. Qed.
Lemma RtoC_m1 : RtoC (-1) = (- C1)%C.
Proof. apply C_eq; simpl; lra. Qed.
Lemma RtoC_m2 : RtoC (-2) = (- C2)%C.
Proof. apply C_eq; simpl; lra. Qed.
Lemma RtoC_4 : RtoC 4 = (C2 * C2)%C.
Proof. apply C_eq; simpl; lra. Qed.

(** The principal square root squares back to its argument. *)
Lemma Csqrt_sqr (x : C) : (Csqrt x * Csqrt x)%C = x.
Proof.
  destruct x as [a b]. unfold Csqrt, Cmul, Cmod, Cnorm2; simpl.
  set (m := sqrt (a * a + b * b)).
  assert (Hm0 : 0 <= m) by apply sqrt_pos.
  assert (Hmm : m * m = a * a + b * b) by (apply sqrt_sqrt; nra).
  assert (Hp : 0 <= (m + a) / 2) by nra.
  assert (Hq : 0 <= (m - a) / 2) by nra.
  set (p := sqrt ((m + a) / 2)). set (q := sqrt ((m - a) / 2)).
  assert (Hpp : p * p = (m + a) / 2) by (apply sqrt_sqrt; exact Hp).
  assert (Hqq : q * q = (m - a) / 2) by (apply sqrt_sqrt; exact Hq).
  assert (Hpq : p * q = Rabs b / 2).
  { unfold p, q. rewrite <- sqrt_mult by assumption.
    replace ((m + a) / 2 * ((m - a) / 2)) with ((b / 2) * (b / 2)) by nra.
    fold (Rsqr (b / 2)). rewrite sqrt_Rsqr_abs. unfold Rdiv. rewrite Rabs_mult.
    rewrite (Rabs_right (/ 2)) by lra. reflexivity. }
  destruct (Rlt_dec b 0) as [Hb|Hb]; apply C_eq; simpl.
  - nra.
  - rewrite Rabs_left in Hpq by assumption. nra.
  - nra.
  - rewrite Rabs_right in Hpq by lra. nra.
Qed.

(** The principal root of the square of a number in the right half
    plane is that number. *)
Lemma Csqrt_of_sqr (t : C) :
  0 < Re t \/ (Re t = 0 /\ 0 <= Im t) -> Csqrt (t * t)%C = t.
Proof.
  destruct t as [p q]; simpl. intros Ht.
  unfold Csqrt, Cmul, Cmod, Cnorm2; simpl.
  replace ((p * p - q * q) * (p * p - q * q) + (p * q + q * p) * (p * q + q * p))
    with (Rsqr (p * p + q * q)) by (unfold Rsqr; ring).
  rewrite sqrt_Rsqr by nra.
  replace ((p * p + q * q + (p * p - q * q)) / 2) with (Rsqr p)
    by (unfold Rsqr; field).
  replace ((p * p + q * q - (p * p - q * q)) / 2) with (Rsqr q)
    by (unfold Rsqr; field).
  rewrite !sqrt_Rsqr_abs.
  assert (Hp : Rabs p = p) by (apply Rabs_right; lra).
  rewrite Hp. apply C_eq; simpl; [reflexivity|].
  destruct (Rlt_dec (p * q + q * p) 0) as [H|H].
  - rewrite Rabs_left by nra. lra.
  - destruct Ht as [Ht|[-> Hq]].
    + rewrite Rabs_right by nra. lra.
    + rewrite Rabs_right by lra. lra.
Qed.

End CplxFacts.

(** ** Arithmetic on [complex128] *)

Module NumpyFacts.
Import Cplx Numpy CplxFacts.
Local Open Scope np_scope.

Lemma add_comm (x y : complex128) : x + y = y + x.
Proof. destruct x, y; try reflexivity. unfold add; simpl. f_equal. ring. Qed.

Lemma mul_comm (x y : complex128) : x * y = y * x.
Proof. destruct x, y; try reflexivity. unfold mul; simpl. f_equal. ring. Qed.

Lemma div_Fin (a b : C) : b <> C0 -> Fin a / Fin b = Fin (a / b)%C.
Proof. intros Hb. unfold div. destruct (Ceq_dec b C0); [contradiction|reflexivity]. Qed.

Lemma div_Fin_0 (a : C) : Fin a / Fin C0 = NonFinite.
Proof. unfold div. destruct (Ceq_dec C0 C0); [reflexivity|contradiction]. Qed.

Lemma half_double (x : complex128) : (x + x) / of_Z 2 = x.
Proof.
  destruct x as [a|]; [|reflexivity].
  unfold of_Z, of_R, add; simpl. rewrite RtoC_2, div_Fin by apply C2_neq_0.
  f_equal. unfold C2. field. apply C2_neq_0.
Qed.

Lemma sum_replicate_Fin (n : nat) (a : C) :
  sum (replicate n (Fin a)) = Fin (RtoC (INR n) * a)%C.
Proof.
  induction n as [|n IH].
  - simpl. unfold of_Z, of_R. f_equal. apply C_eq; simpl; lra.
  - change (sum (replicate (S n) (Fin a))) with (Fin a + sum (replicate n (Fin a))).
    rewrite IH, S_INR. unfold add; simpl. f_equal. apply C_eq; simpl; lra.
Qed.

(** The mean of [n > 0] copies of a value is that value. *)
Lemma mean_replicate (n : nat) (d : complex128) :
  (0 < n)%nat -> mean (replicate n d) = d.
Proof.
  intros Hn. unfold mean. rewrite length_replicate.
  destruct d as [a|].
  - rewrite sum_replicate_Fin. unfold of_nat, of_R.
    assert (Hne : RtoC (INR n) <> C0).
    { apply RtoC_neq_0. apply not_0_INR. lia. }
    rewrite div_Fin by exact Hne. f_equal. field. exact Hne.
  - destruct n; [lia|]. reflexivity.
Qed.

End NumpyFacts.

(** ** enforce_reciprocal_symmetric *)

Module SymmetrizerFacts.
Import Cplx Numpy Skrf Pads CplxFacts NumpyFacts.
Local Open Scope np_scope.

Lemma zip_with_imap_same {A B D} (h : A -> B -> D) (g : nat -> A -> B)
    (l : list A) :
  zip_with h l (imap g l) = imap (fun i x => h x (g i x)) l.
Proof.
  revert g. induction l as [|x l IH]; intros g; [reflexivity|].
  rewrite !imap_cons. simpl. f_equal. apply IH.
Qed.

Lemma imap_imap {A B D} (h : nat -> B -> D) (g : nat -> A -> B) (l : list A) :
  imap h (imap g l) = imap (fun i x => h i (g i x)) l.
Proof.
  revert h g. induction l as [|x l IH]; intros h g; [reflexivity|].
  rewrite !imap_cons. f_equal. apply IH.
Qed.

Lemma insert_imap {A} (row : list A) (r : nat) (v : A) :
  <[r:=v]> row = imap (fun c x => if decide (c = r) then v else x) row.
Proof.
  apply list_eq. intros c. rewrite list_lookup_imap, list_lookup_insert.
  destruct (row !! c) as [x|] eqn:Hc; simpl.
  - apply lookup_lt_Some in Hc as Hlt.
    destruct (decide (c = r)) as [->|Hne].
    + rewrite decide_True by (split; [reflexivity|exact Hlt]). reflexivity.
    + rewrite decide_False by (intros [? _]; congruence). reflexivity.
  - apply lookup_ge_None in Hc.
    rewrite decide_False by (intros [? ?]; lia). reflexivity.
Qed.

Lemma reciprocal_imap (m : matrix) :
  reciprocal m = imap2 (fun r c x => (x + mat_get m c r) / of_Z 2) m.
Proof.
  unfold reciprocal, mat_div, mat_add, transpose, imap2.
  rewrite zip_with_imap_same, fmap_imap. apply imap_ext. intros r row _.
  simpl. rewrite zip_with_imap_same, fmap_imap. reflexivity.
Qed.

Lemma symmetrized_imap (m : matrix) :
  average_diagonal (reciprocal m)
  = imap2 (entry m (mean (diag (reciprocal m)))) m.
Proof.
  unfold average_diagonal, fill_diagonal.
  generalize (mean (diag (reciprocal m))). intros avg.
  rewrite reciprocal_imap. unfold imap2. rewrite imap_imap.
  apply imap_ext. intros r row _. simpl.
  rewrite insert_imap, imap_imap. reflexivity.
Qed.

Lemma square_lookup (n : nat) (m : matrix) (r c : nat) :
  square n m -> (r < n)%nat -> (c < n)%nat ->
  exists row x, m !! r = Some row /\ row !! c = Some x /\ mat_get m r c = x.
Proof.
  intros [Hlen Hrows] Hr Hc.
  destruct (lookup_lt_is_Some_2 m r) as [row Hrow]; [lia|].
  rewrite Forall_lookup in Hrows. specialize (Hrows _ _ Hrow). simpl in Hrows.
  destruct (lookup_lt_is_Some_2 row c) as [x Hx]; [lia|].
  exists row, x. repeat split; try assumption.
  unfold mat_get. rewrite Hrow. simpl. rewrite Hx. reflexivity.
Qed.

Lemma square_imap2 (n : nat) g (m : matrix) : square n m -> square n (imap2 g m).
Proof.
  intros [Hlen Hrows]. split.
  - unfold imap2. rewrite length_imap. exact Hlen.
  - rewrite Forall_lookup. intros r row Hrow. unfold imap2 in Hrow.
    rewrite list_lookup_imap in Hrow.
    destruct (m !! r) as [row0|] eqn:Hr0; simplify_eq/=.
    rewrite length_imap. rewrite Forall_lookup in Hrows. exact (Hrows _ _ Hr0).
Qed.

Lemma mat_get_imap2 (n : nat) g (m : matrix) (r c : nat) :
  square n m -> (r < n)%nat -> (c < n)%nat ->
  mat_get (imap2 g m) r c = g r c (mat_get m r c).
Proof.
  intros Hsq Hr Hc.
  destruct (square_lookup n m r c Hsq Hr Hc) as (row & x & Hrow & Hx & ->).
  unfold mat_get, imap2. rewrite list_lookup_imap, Hrow. simpl.
  rewrite list_lookup_imap, Hx. reflexivity.
Qed.

(** Two square matrices with the same entries are equal. *)
Lemma matrix_ext (n : nat) (m1 m2 : matrix) :
  square n m1 -> square n m2 ->
  (forall r c, (r < n)%nat -> (c < n)%nat -> mat_get m1 r c = mat_get m2 r c) ->
  m1 = m2.
Proof.
  intros H1 H2 Hext. apply list_eq. intros r.
  destruct (decide (r < n)%nat) as [Hr|Hr].
  - destruct H1 as [Hl1 Hr1], H2 as [Hl2 Hr2].
    destruct (lookup_lt_is_Some_2 m1 r) as [row1 Hrow1]; [lia|].
    destruct (lookup_lt_is_Some_2 m2 r) as [row2 Hrow2]; [lia|].
    rewrite Hrow1, Hrow2. f_equal.
    rewrite Forall_lookup in Hr1. rewrite Forall_lookup in Hr2.
    pose proof (Hr1 _ _ Hrow1) as Hn1. pose proof (Hr2 _ _ Hrow2) as Hn2.
    simpl in Hn1, Hn2. apply list_eq. intros c.
    destruct (decide (c < n)%nat) as [Hc|Hc].
    + specialize (Hext r c Hr Hc). unfold mat_get in Hext.
      rewrite Hrow1, Hrow2 in Hext. simpl in Hext.
      destruct (lookup_lt_is_Some_2 row1 c) as [x1 Hx1]; [lia|].
      destruct (lookup_lt_is_Some_2 row2 c) as [x2 Hx2]; [lia|].
      rewrite Hx1, Hx2 in *. simpl in Hext. congruence.
    + rewrite !lookup_ge_None_2 by lia. reflexivity.
  - destruct H1 as [Hl1 _], H2 as [Hl2 _].
    rewrite !lookup_ge_None_2 by lia. reflexivity.
Qed.

Lemma square_transpose (n : nat) (m : matrix) : square n m -> square n (transpose m).
Proof. apply (square_imap2 n (fun r c _ => mat_get m c r)). Qed.

Lemma mat_get_transpose (n : nat) (m : matrix) (r c : nat) :
  square n m -> (r < n)%nat -> (c < n)%nat ->
  mat_get (transpose m) r c = mat_get m c r.
Proof. apply (mat_get_imap2 n (fun r c _ => mat_get m c r)). Qed.

Lemma diag_lookup (n : nat) (m : matrix) (r : nat) :
  square n m -> (r < n)%nat -> diag m !! r = Some (mat_get m r r).
Proof.
  intros Hsq Hr.
  destruct (square_lookup n m r r Hsq Hr Hr) as (row & x & Hrow & Hx & ->).
  unfold diag. rewrite list_lookup_imap, Hrow. simpl. rewrite Hx. reflexivity.
Qed.

Lemma length_diag (m : matrix) : length (diag m) = length m.
Proof. unfold diag. apply length_imap. Qed.

Lemma symmetrized_square (n : nat) (m : matrix) :
  square n m -> square n (average_diagonal (reciprocal m)).
Proof. intros H. rewrite symmetrized_imap. apply square_imap2, H. Qed.

Lemma symmetrized_get (n : nat) (m : matrix) (r c : nat) :
  square n m -> (r < n)%nat -> (c < n)%nat ->
  mat_get (average_diagonal (reciprocal m)) r c
  = entry m (mean (diag (reciprocal m))) r c (mat_get m r c).
Proof. intros. rewrite symmetrized_imap. apply (mat_get_imap2 n); assumption. Qed.

Lemma symmetrized_reciprocal_symmetric (n : nat) (m : matrix) :
  square n m -> reciprocal_symmetric (average_diagonal (reciprocal m)).
Proof.
  intros Hsq. pose proof (symmetrized_square n m Hsq) as Hsq'. split.
  - apply (matrix_ext n); [apply square_transpose, Hsq'|exact Hsq'|].
    intros r c Hr Hc. rewrite (mat_get_transpose n) by assumption.
    rewrite !(symmetrized_get n) by assumption. unfold entry.
    repeat case_decide; try reflexivity; try lia. f_equal. apply add_comm.
  - exists (mean (diag (reciprocal m))). apply list_eq. intros r.
    destruct Hsq' as [Hlen' Hrows']. rewrite Hlen'.
    destruct (decide (r < n)%nat) as [Hr|Hr].
    + rewrite (diag_lookup n) by (split || idtac; assumption).
      rewrite lookup_replicate_2 by assumption. f_equal.
      rewrite (symmetrized_get n) by assumption. unfold entry.
      case_decide; [reflexivity|contradiction].
    + rewrite !lookup_ge_None_2; [reflexivity| |].
      * rewrite length_replicate. lia.
      * rewrite length_diag. lia.
Qed.

(** A matrix that is already reciprocal and symmetric is left as it is. *)
Lemma symmetrized_fixed (n : nat) (m : matrix) :
  square n m -> reciprocal_symmetric m -> average_diagonal (reciprocal m) = m.
Proof.
  intros Hsq [Htr [d Hd]].
  assert (Hsym : forall r c, (r < n)%nat -> (c < n)%nat ->
                             mat_get m c r = mat_get m r c).
  { intros r c Hr Hc. rewrite <- (mat_get_transpose n m r c) by assumption.
    rewrite Htr. reflexivity. }
  assert (Hdiag : forall r, (r < n)%nat -> mat_get m r r = d).
  { intros r Hr. pose proof (diag_lookup n m r Hsq Hr) as H.
    rewrite Hd in H. destruct Hsq as [Hlen _]. rewrite Hlen in H.
    rewrite lookup_replicate_2 in H by assumption. congruence. }
  assert (Hrec : forall r c, (r < n)%nat -> (c < n)%nat ->
                             mat_get (reciprocal m) r c = mat_get m r c).
  { intros r c Hr Hc. rewrite reciprocal_imap.
    rewrite (mat_get_imap2 n) by assumption.
    rewrite Hsym by assumption. apply half_double. }
  assert (Hsqr : square n (reciprocal m)).
  { rewrite reciprocal_imap. apply square_imap2, Hsq. }
  apply (matrix_ext n); [apply symmetrized_square, Hsq|exact Hsq|].
  intros r c Hr Hc. rewrite (symmetrized_get n) by assumption. unfold entry.
  case_decide as Hrc.
  - subst c.
    assert (Hdr : diag (reciprocal m) = replicate n d).
    { apply list_eq. intros i. destruct (decide (i < n)%nat) as [Hi|Hi].
      - rewrite (diag_lookup n) by assumption.
        rewrite lookup_replicate_2 by assumption.
        rewrite Hrec, Hdiag by assumption. reflexivity.
      - rewrite !lookup_ge_None_2; [reflexivity| |].
        + rewrite length_replicate. lia.
        + rewrite length_diag. destruct Hsqr as [-> _]. lia. }
    rewrite Hdr, mean_replicate by lia. symmetry. apply Hdiag, Hr.
  - rewrite Hsym by assumption. apply half_double.
Qed.

Lemma enforce_wf (N : Network.t) :
  Network_wf N -> Network_wf (enforce_reciprocal_symmetric N).
Proof.
  intros [n Hn]. exists n. unfold enforce_reciprocal_symmetric; simpl.
  rewrite <- list_fmap_compose. apply Forall_fmap.
  eapply Forall_impl; [exact Hn|]. intros m Hm. simpl.
  apply symmetrized_square, Hm.
Qed.

End SymmetrizerFacts.

(** ** The network algebra on finite values *)

Module SkrfFacts.
Import Cplx Numpy Skrf CplxFacts NumpyFacts.

Ltac np_unfold :=
  cbv beta iota zeta delta
    [m11 m12 m21 m22 add sub mul neg sqrt lift1 lift2 of_Z of_R where_].

Ltac c_consts :=
  rewrite ?RtoC_2, ?RtoC_m1, ?RtoC_m2, ?RtoC_4;
  change (RtoC 1) with C1; change (RtoC 0) with C0.

(** Closed side conditions of [field] on numerals. *)
Ltac c_unfold :=
  cbv beta iota zeta delta
    [Re Im fst snd Cadd Csub Cmul Copp Cdiv Cinv Cnorm2 RtoC C0 C1 C2
     Pads.Finite.den Pads.Finite.k].

Ltac c_unfold_in H :=
  cbv beta iota zeta delta
    [Re Im fst snd Cadd Csub Cmul Copp Cdiv Cinv Cnorm2 RtoC C0 C1 C2
     Pads.Finite.den Pads.Finite.k] in H.

Ltac c_nonzero :=
  let H := fresh in
  intros H;
  first [ apply (f_equal Re) in H; c_unfold_in H;
          first [ lra | field_simplify in H; lra ]
        | apply (f_equal Im) in H; c_unfold_in H;
          first [ lra | field_simplify in H; lra ] ].

Ltac c_field := field; repeat split; try assumption; try c_nonzero.

Lemma is_zero_Fin_false (a : C) : a <> C0 -> is_zero (Fin a) = false.
Proof. intros H. unfold is_zero. destruct (Ceq_dec a C0); [contradiction|reflexivity]. Qed.

Lemma is_zero_Fin_true (a : C) : a = C0 -> is_zero (Fin a) = true.
Proof. intros H. unfold is_zero. destruct (Ceq_dec a C0); [reflexivity|contradiction]. Qed.

Lemma mapM_idx_fmap {A A' B} (g : nat -> A' -> result B) (h : A -> A')
    (i : nat) (l : list A) :
  mapM_idx g i (h <$> l) = mapM_idx (fun i x => g i (h x)) i l.
Proof.
  revert i. induction l as [|x l IH]; intros i; [reflexivity|].
  simpl. rewrite IH. reflexivity.
Qed.

(** What a loop that returned has computed, point by point. *)
Lemma mapM_idx_inv {A B} (g : nat -> A -> result B) (i : nat) (l : list A)
    (ys : list B) :
  mapM_idx g i l = Returned ys ->
  length ys = length l /\
  forall j x, l !! j = Some x ->
              exists y, ys !! j = Some y /\ g (i + j)%nat x = Returned y.
Proof.
  revert i ys. induction l as [|x l IH]; intros i ys H; simpl in H.
  - injection H as <-. split; [reflexivity|]. intros j x Hx. discriminate.
  - destruct (g i x) as [y|e] eqn:Hg; simpl in H; [|discriminate].
    destruct (mapM_idx g (S i) l) as [ys'|e] eqn:Hm; simpl in H; [|discriminate].
    injection H as <-. destruct (IH _ _ Hm) as [Hlen Hpt]. split.
    + simpl. congruence.
    + intros [|j] x' Hx'; simpl in Hx'.
      * injection Hx' as <-. exists y. rewrite Nat.add_0_r. split; [reflexivity|exact Hg].
      * destruct (Hpt j x' Hx') as (y' & Hy' & Hgy). exists y'.
        rewrite Nat.add_succ_r. split; assumption.
Qed.

Lemma mapM_idx_fmap_result {A B B'} (g : nat -> A -> result B)
    (h : nat -> A -> result B') (k : B -> B') (i : nat) (l : list A) :
  (forall j x, h j x = fmap (M:=result) k (g j x)) ->
  mapM_idx h i l = fmap (M:=result) (fmap (M:=list) k) (mapM_idx g i l).
Proof.
  intros Hk. revert i. induction l as [|x l IH]; intros i; [reflexivity|].
  simpl. rewrite Hk, IH.
  destruct (g i x); [|reflexivity]. simpl.
  destruct (mapM_idx g (S i) l); reflexivity.
Qed.

Section TwoPort.
Variables (z0 : R) (i : nat) (a b c d : C).

Let r : C := RtoC z0.

Lemma z2s_point_Fin :
  let det := ((a + r) * (d + r) - b * c)%C in
  det <> C0 ->
  z2s_point z0 i (Mat2 (Fin a) (Fin b) (Fin c) (Fin d))
  = Returned (Mat2 (Fin (((a - r) * (d + r) - b * c) / det)%C)
                   (Fin (RtoC 2 * r * b / det)%C)
                   (Fin (RtoC 2 * r * c / det)%C)
                   (Fin (((a + r) * (d - r) - b * c) / det)%C)).
Proof.
  intros det Hdet. unfold z2s_point. np_unfold. fold r. fold det.
  rewrite is_zero_Fin_false by exact Hdet.
  rewrite !div_Fin by exact Hdet. reflexivity.
Qed.

Lemma z2s_point_singular :
  ((a + r) * (d + r) - b * c)%C = C0 ->
  z2s_point z0 i (Mat2 (Fin a) (Fin b) (Fin c) (Fin d))
  = Raised (SingularMatrixError i).
Proof.
  intros Hdet. unfold z2s_point. np_unfold. fold r.
  rewrite is_zero_Fin_true by exact Hdet. reflexivity.
Qed.

Lemma s2z_point_Fin :
  let det := ((C1 - a) * (C1 - d) - b * c)%C in
  det <> C0 ->
  s2z_point z0 i (Mat2 (Fin a) (Fin b) (Fin c) (Fin d))
  = Returned (Mat2 (Fin (r * ((C1 + a) * (C1 - d) + b * c) / det)%C)
                   (Fin (r * (RtoC 2 * b) / det)%C)
                   (Fin (r * (RtoC 2 * c) / det)%C)
                   (Fin (r * ((C1 - a) * (C1 + d) + b * c) / det)%C)).
Proof.
  intros det Hdet. unfold s2z_point. np_unfold. fold r.
  change (RtoC 1) with C1. fold det.
  rewrite is_zero_Fin_false by exact Hdet.
  rewrite !div_Fin by exact Hdet. reflexivity.
Qed.


Lemma inv_point_Fin :
  let det := (a * d - b * c)%C in
  c <> C0 -> b <> C0 -> det <> C0 ->
  inv_point i (Mat2 (Fin a) (Fin b) (Fin c) (Fin d))
  = Returned (Mat2 (Fin (a / det)%C) (Fin (- c / det)%C)
                   (Fin (- b / det)%C) (Fin (d / det)%C)).
Proof.
  intros det Hc Hb Hdet. unfold inv_point. np_unfold. fold det.
  rewrite !is_zero_Fin_false by assumption. cbn [orb].
  rewrite !div_Fin by exact Hdet. reflexivity.
Qed.

(** What [inv_point] returned on a finite matrix: the inverse was
    regular, and the result is finite. *)
Lemma inv_point_Returned (X : mat2) :
  inv_point i (Mat2 (Fin a) (Fin b) (Fin c) (Fin d)) = Returned X ->
  let det := (a * d - b * c)%C in
  c <> C0 /\ b <> C0 /\ det <> C0 /\
  X = Mat2 (Fin (a / det)%C) (Fin (- c / det)%C)
           (Fin (- b / det)%C) (Fin (d / det)%C).
Proof.
  intros H det.
  destruct (Ceq_dec c C0) as [Hc|Hc].
  { unfold inv_point in H. cbn [m11 m12 m21 m22] in H.
    rewrite (is_zero_Fin_true c Hc) in H. discriminate. }
  destruct (Ceq_dec b C0) as [Hb|Hb].
  { unfold inv_point in H. cbn [m11 m12 m21 m22] in H.
    rewrite (is_zero_Fin_true b Hb), orb_true_r in H. discriminate. }
  destruct (Ceq_dec det C0) as [Hd|Hd].
  { unfold inv_point in H. revert H. np_unfold. fold det.
    rewrite (is_zero_Fin_true det Hd), orb_true_r. discriminate. }
  pose proof inv_point_Fin as HF. cbv zeta in HF. fold det in HF.
  rewrite HF in H by assumption. injection H as <-. auto.
Qed.

End TwoPort.

Lemma cascade_point_Fin (a11 a12 a21 a22 b11 b12 b21 b22 : C) :
  let det := (C1 - a22 * b11)%C in
  det <> C0 ->
  cascade_point (Mat2 (Fin a11) (Fin a12) (Fin a21) (Fin a22))
                (Mat2 (Fin b11) (Fin b12) (Fin b21) (Fin b22))
  = Mat2 (Fin (a11 + a12 * b11 * a21 / det)%C)
         (Fin (a12 * b12 / det)%C)
         (Fin (a21 * b21 / det)%C)
         (Fin (b22 + b21 * a22 * b12 / det)%C).
Proof.
  intros det Hdet. unfold cascade_point. np_unfold.
  change (RtoC 1) with C1. fold det.
  rewrite !div_Fin by exact Hdet. reflexivity.
Qed.


End SkrfFacts.

(** ** tee_network *)

Module TeeFacts.
Import Cplx Numpy Skrf Pads CplxFacts NumpyFacts SkrfFacts.
Local Open Scope np_scope.

Lemma zip_with_add_comm (l1 l2 : list complex128) :
  zip_with add l1 l2 = zip_with add l2 l1.
Proof.
  revert l2. induction l1 as [|x l1 IH]; intros [|y l2]; try reflexivity.
  simpl. rewrite add_comm, IH. reflexivity.
Qed.

Lemma broadcast2_add_comm (l1 l2 : list complex128) :
  broadcast2 add l1 l2 = broadcast2 add l2 l1.
Proof.
  unfold broadcast2.
  destruct (decide (length l1 = length l2)) as [Hl|Hl].
  - rewrite decide_True by congruence. f_equal. apply zip_with_add_comm.
  - rewrite decide_False by congruence.
    assert (Hc : forall x (l : list complex128),
               add x <$> l = (fun y => y + x) <$> l).
    { intros x l. apply list_fmap_ext. intros _ y _. apply add_comm. }
    destruct l1 as [|x1 [|x1' l1]], l2 as [|x2 [|x2' l2]]; simpl in *;
      try congruence; try reflexivity; f_equal.
    + rewrite (add_comm x1 x2), (add_comm x1 x2'), Hc. reflexivity.
    + rewrite (add_comm x2 x1), (add_comm x2 x1'), Hc. reflexivity.
Qed.

Lemma zip_columns_swap (x a y : list complex128) :
  zip_with (fun ab cd => Mat2 ab.1 ab.2 cd.1 cd.2) (zip y a) (zip a x)
  = swap_ports <$>
    zip_with (fun ab cd => Mat2 ab.1 ab.2 cd.1 cd.2) (zip x a) (zip a y).
Proof.
  revert x y. induction a as [|a0 a IH]; intros x y.
  - destruct x, y; reflexivity.
  - destruct x as [|x0 x], y as [|y0 y]; try reflexivity.
    simpl. rewrite IH. reflexivity.
Qed.

(** The impedance array of the mirrored triple is the port swap of the
    original array. *)
Lemma tee_z_mirror (n : nat) (Z1 Z2 Z3 : list complex128) :
  tee_z n Z3 Z2 Z1 = fmap (M:=list) swap_ports <$> tee_z n Z1 Z2 Z3.
Proof.
  unfold tee_z.
  rewrite (broadcast2_add_comm Z3 Z2), (broadcast2_add_comm Z2 Z1).
  destruct (broadcast2 add Z2 Z3 ≫= assign n) as [z11|]; simpl;
    destruct (broadcast2 add Z1 Z2 ≫= assign n) as [z00|]; simpl;
    destruct (assign n Z2) as [z01|]; simpl; try reflexivity.
  f_equal. apply zip_columns_swap.
Qed.

Lemma z2s_point_swap (z0 : R) (i : nat) (Z : mat2) :
  z2s_point z0 i (swap_ports Z) = fmap (M:=result) swap_ports (z2s_point z0 i Z).
Proof.
  destruct Z as [a b c d]. unfold z2s_point, swap_ports; simpl.
  rewrite (mul_comm (d + of_R z0) (a + of_R z0)), (mul_comm c b).
  destruct (is_zero _); [reflexivity|]. simpl. unfold swap_ports; simpl.
  rewrite (mul_comm (d - of_R z0) (a + of_R z0)).
  rewrite (mul_comm (d + of_R z0) (a - of_R z0)). reflexivity.
Qed.

Lemma Network_from_z_swap (f : list R) (z : list mat2) (z0 : R) :
  Network_from_z f (swap_ports <$> z) z0
  = fmap (M:=result) Network_swap_ports (Network_from_z f z z0).
Proof.
  unfold Network_from_z. rewrite mapM_idx_fmap.
  rewrite (mapM_idx_fmap_result (z2s_point z0) _ swap_ports)
    by (intros; apply z2s_point_swap).
  destruct (mapM_idx (z2s_point z0) 0 z) as [S|e]; [|reflexivity]. simpl.
  unfold Network_swap_ports; simpl. f_equal. f_equal.
  rewrite <- !list_fmap_compose. apply list_fmap_ext.
  intros _ [a b c d] _. reflexivity.
Qed.

End TeeFacts.

(** ** extract_pad *)

Module ExtractFacts.
Import Cplx Numpy Skrf Pads CplxFacts NumpyFacts SkrfFacts.
Local Open Scope np_scope.

Lemma extract_point_roots (Z11 Z21 : complex128) :
  extract_point Z11 Z21
  = (where_ (imag_ge0 (quadratic_roots Z11 Z21).1)
            (quadratic_roots Z11 Z21).1 (quadratic_roots Z11 Z21).2,
     Z11 + Z21 - where_ (imag_ge0 (quadratic_roots Z11 Z21).1)
                        (quadratic_roots Z11 Z21).1 (quadratic_roots Z11 Z21).2,
     closure_k Z11 Z21 *
       where_ (imag_ge0 (quadratic_roots Z11 Z21).1)
              (quadratic_roots Z11 Z21).1 (quadratic_roots Z11 Z21).2).
Proof. reflexivity. Qed.

Lemma div_Fin_zero (a b : C) : b = C0 -> Fin a / Fin b = NonFinite.
Proof. intros ->. apply div_Fin_0. Qed.

Lemma two_neq_0 : (RtoC 2 * RtoC 1)%C <> C0.
Proof. intros [= H]. lra. Qed.

Section Point.
Variables z11 z21 : C.

Lemma closure_denominator_Fin :
  closure_denominator (Fin z11) (Fin z21) = Fin (Finite.den z11 z21).
Proof. reflexivity. Qed.

Lemma closure_k_Fin :
  Finite.den z11 z21 <> C0 ->
  closure_k (Fin z11) (Fin z21) = Fin (Finite.k z11 z21).
Proof.
  intros Hden. unfold closure_k. rewrite closure_denominator_Fin.
  np_unfold. rewrite div_Fin by exact Hden. reflexivity.
Qed.

Lemma quadratic_roots_Fin :
  Finite.den z11 z21 <> C0 ->
  quadratic_roots (Fin z11) (Fin z21)
  = (Fin (Finite.x1 z11 z21), Fin (Finite.x2 z11 z21)).
Proof.
  intros Hden. unfold quadratic_roots. rewrite closure_k_Fin by exact Hden.
  np_unfold. rewrite !div_Fin by exact two_neq_0. reflexivity.
Qed.

(** On a finite point with a non-zero denominator the extraction is the
    finite computation. *)
Lemma extract_point_Fin :
  Finite.den z11 z21 <> C0 ->
  extract_point (Fin z11) (Fin z21)
  = (Fin (Finite.Z1 z11 z21), Fin (Finite.Z2 z11 z21), Fin (Finite.Z3 z11 z21)).
Proof.
  intros Hden. rewrite extract_point_roots.
  rewrite quadratic_roots_Fin, closure_k_Fin by exact Hden. cbn [fst snd].
  unfold Finite.Z2, Finite.Z3, Finite.Z1, imag_ge0.
  destruct (Rle_dec 0 (Im (Finite.x1 z11 z21))); np_unfold; reflexivity.
Qed.

(** With a zero denominator every output of the point is non-finite. *)
Lemma extract_point_degenerate :
  Finite.den z11 z21 = C0 ->
  extract_point (Fin z11) (Fin z21) = (NonFinite, NonFinite, NonFinite).
Proof.
  intros Hden. rewrite extract_point_roots.
  assert (Hk : closure_k (Fin z11) (Fin z21) = NonFinite).
  { unfold closure_k. rewrite closure_denominator_Fin. np_unfold.
    apply div_Fin_zero, Hden. }
  unfold quadratic_roots. rewrite Hk. reflexivity.
Qed.

(** Both candidate roots solve [x^2 + b x + c = 0]. *)
Lemma x1_root :
  let x := Finite.x1 z11 z21 in
  (x * x + Finite.b z11 z21 * x + Finite.c z11 z21)%C = C0.
Proof.
  intros x. unfold x, Finite.x1.
  pose proof (Csqrt_sqr (Finite.disc z11 z21)) as Hs.
  set (s := Csqrt (Finite.disc z11 z21)) in *.
  unfold Finite.disc in Hs. set (b := Finite.b z11 z21) in *.
  set (c := Finite.c z11 z21) in *. c_consts.
  transitivity ((s * s - (b * b - C2 * C2 * C1 * c)) / (C2 * C2))%C.
  - unfold C2. c_field.
  - rewrite RtoC_4 in Hs. change (RtoC 1) with C1 in Hs. rewrite Hs.
    unfold C2. c_field.
Qed.

Lemma x2_root :
  let x := Finite.x2 z11 z21 in
  (x * x + Finite.b z11 z21 * x + Finite.c z11 z21)%C = C0.
Proof.
  intros x. unfold x, Finite.x2.
  pose proof (Csqrt_sqr (Finite.disc z11 z21)) as Hs.
  set (s := Csqrt (Finite.disc z11 z21)) in *.
  unfold Finite.disc in Hs. set (b := Finite.b z11 z21) in *.
  set (c := Finite.c z11 z21) in *. c_consts.
  transitivity ((s * s - (b * b - C2 * C2 * C1 * c)) / (C2 * C2))%C.
  - unfold C2. c_field.
  - rewrite RtoC_4 in Hs. change (RtoC 1) with C1 in Hs. rewrite Hs.
    unfold C2. c_field.
Qed.

Lemma Z1_root :
  let x := Finite.Z1 z11 z21 in
  (x * x + Finite.b z11 z21 * x + Finite.c z11 z21)%C = C0.
Proof.
  intros x. unfold x, Finite.Z1.
  destruct (Rle_dec 0 (Im (Finite.x1 z11 z21))); [apply x1_root|apply x2_root].
Qed.

End Point.

Lemma zip_with_fmap_same {A B D E} (h : B -> D -> E) (g1 : A -> B)
    (g2 : A -> D) (l : list A) :
  zip_with h (g1 <$> l) (g2 <$> l) = (fun x => h (g1 x) (g2 x)) <$> l.
Proof.
  induction l as [|x l IH]; [reflexivity|].
  rewrite !fmap_cons. cbn [zip_with]. rewrite IH. reflexivity.
Qed.

Lemma extract_pad_Returned (net : Network.t) (Zs : list mat2) :
  Network_z net = Returned Zs ->
  extract_pad net
  = Returned (Network.f net,
              (fun p => (point_of p).1.1) <$> Zs,
              (fun p => (point_of p).1.2) <$> Zs,
              (fun p => (point_of p).2) <$> Zs).
Proof.
  intros HZ. unfold extract_pad. rewrite HZ. unfold mbind, result_bind.
  rewrite zip_with_fmap_same, <- !list_fmap_compose. reflexivity.
Qed.

Lemma extract_pad_Raised (net : Network.t) (e : error) :
  Network_z net = Raised e -> extract_pad net = Raised e.
Proof. intros HZ. unfold extract_pad. rewrite HZ. reflexivity. Qed.

Lemma extract_pad_inv (net : Network.t) f (Z1 Z2 Z3 : list complex128) :
  extract_pad net = Returned (f, Z1, Z2, Z3) ->
  exists Zs, Network_z net = Returned Zs /\ f = Network.f net /\
             Z1 = (fun p => (point_of p).1.1) <$> Zs /\
             Z2 = (fun p => (point_of p).1.2) <$> Zs /\
             Z3 = (fun p => (point_of p).2) <$> Zs.
Proof.
  intros H. destruct (Network_z net) as [Zs|e] eqn:HZ.
  - rewrite (extract_pad_Returned _ _ HZ) in H. injection H as <- <- <- <-.
    exists Zs. repeat split; reflexivity.
  - rewrite (extract_pad_Raised _ _ HZ) in H. discriminate.
Qed.

End ExtractFacts.

(** ** Reading the impedance parameters back *)

Module RoundTripFacts.
Import Cplx Numpy Skrf Pads CplxFacts NumpyFacts SkrfFacts.

Lemma Cinv_neq_0 (x : C) : x <> C0 -> (/ x)%C <> C0.
Proof.
  intros Hx H. apply C1_neq_C0.
  transitivity (/ x * x)%C; [symmetry; apply Cinv_l, Hx|].
  rewrite H. ring.
Qed.

Lemma Cdiv_neq_0 (x y : C) : x <> C0 -> y <> C0 -> (x / y)%C <> C0.
Proof. intros Hx Hy. apply Cmul_neq_0; [exact Hx|apply Cinv_neq_0, Hy]. Qed.

(** [s2z] undoes [z2s] on a finite impedance matrix, for a non-zero
    reference impedance. *)
Lemma s2z_z2s_point (z0 : R) (i j : nat) (a b c d : C) (S : mat2) :
  z0 <> 0%R ->
  z2s_point z0 i (Mat2 (Fin a) (Fin b) (Fin c) (Fin d)) = Returned S ->
  s2z_point z0 j S = Returned (Mat2 (Fin a) (Fin b) (Fin c) (Fin d)).
Proof.
  intros Hz0 HS.
  set (r := RtoC z0) in *.
  assert (Hr : r <> C0) by (apply RtoC_neq_0, Hz0).
  destruct (Ceq_dec ((a + r) * (d + r) - b * c)%C C0) as [Hdet|Hdet].
  - rewrite z2s_point_singular in HS by exact Hdet. discriminate.
  - pose proof (z2s_point_Fin z0 i a b c d) as HF. cbv zeta in HF.
    rewrite HF in HS by exact Hdet. injection HS as <-. clear HF.
    fold r. set (det := ((a + r) * (d + r) - b * c)%C) in *.
    pose proof (s2z_point_Fin z0 j
      (((a - r) * (d + r) - b * c) / det)%C (RtoC 2 * r * b / det)%C
      (RtoC 2 * r * c / det)%C (((a + r) * (d - r) - b * c) / det)%C) as HG.
    cbv zeta in HG. fold r in HG.
    assert (Hdet' :
      ((C1 - ((a - r) * (d + r) - b * c) / det) *
       (C1 - ((a + r) * (d - r) - b * c) / det) -
       RtoC 2 * r * b / det * (RtoC 2 * r * c / det))%C
      = ((C2 * r) * (C2 * r) / det)%C).
    { rewrite RtoC_2. unfold det, C2. c_field. }
    rewrite Hdet' in HG. rewrite HG.
    + f_equal. rewrite RtoC_2. f_equal; f_equal; unfold det, C2; c_field.
    + apply Cdiv_neq_0; [|exact Hdet].
      apply Cmul_neq_0; apply Cmul_neq_0; auto using C2_neq_0.
Qed.

Lemma mapM_idx_intro {A B} (g : nat -> A -> result B) (i : nat) (l : list A)
    (ys : list B) :
  length ys = length l ->
  (forall j x y, l !! j = Some x -> ys !! j = Some y ->
                 g (i + j)%nat x = Returned y) ->
  mapM_idx g i l = Returned ys.
Proof.
  revert i ys. induction l as [|x l IH]; intros i [|y ys] Hlen Hpt;
    try discriminate; [reflexivity|].
  simpl. pose proof (Hpt 0%nat x y eq_refl eq_refl) as H0.
  rewrite Nat.add_0_r in H0. rewrite H0. simpl.
  rewrite (IH (S i) ys); [reflexivity|simpl in Hlen; lia|].
  intros j x' y' Hx' Hy'. replace (S i + j)%nat with (i + S j)%nat by lia.
  apply Hpt; assumption.
Qed.

(** The impedance parameters of a network built from a finite array [z]
    are [z] again. *)
Lemma Network_z_from_z (f : list R) (z : list mat2) (z0 : R) (net : Network.t) :
  z0 <> 0%R -> Forall finite_mat2 z ->
  Network_from_z f z z0 = Returned net -> Network_z net = Returned z.
Proof.
  intros Hz0 Hfin H. unfold Network_from_z in H.
  destruct (mapM_idx (z2s_point z0) 0 z) as [S|e] eqn:HS; [|discriminate].
  injection H as <-. unfold Network_z; simpl.
  rewrite mapM_idx_fmap.
  destruct (mapM_idx_inv _ _ _ _ HS) as [Hlen Hpt].
  apply mapM_idx_intro; [congruence|].
  intros j p' p Hp' Hp. simpl.
  destruct (Hpt j p Hp) as (y & Hy & Hg). rewrite Hp' in Hy. injection Hy as <-.
  rewrite Forall_lookup in Hfin. specialize (Hfin j p Hp).
  destruct p as [[a|] [b|] [c|] [d|]]; unfold finite_mat2 in Hfin; simpl in Hfin;
    try tauto.
  destruct p' as [s11 s12 s21 s22]. simpl.
  eapply s2z_z2s_point; eassumption.
Qed.

End RoundTripFacts.

(** ** The impedance array of a tee *)

Module TeeArrayFacts.
Import Cplx Numpy Skrf Pads CplxFacts NumpyFacts SkrfFacts TeeFacts.
Local Open Scope np_scope.

Lemma assign_length (n : nat) (l col : list complex128) :
  assign n l = Some col -> length col = n.
Proof.
  unfold assign. case_decide as Hl.
  - intros [= <-]. exact Hl.
  - destruct l as [|x [|? ?]]; try discriminate.
    intros [= <-]. apply length_replicate.
Qed.

Lemma columns_proj (n : nat) (z00 z01 z10 z11 : list complex128) :
  length z00 = n -> length z01 = n -> length z10 = n -> length z11 = n ->
  let z := zip_with (fun ab cd => Mat2 ab.1 ab.2 cd.1 cd.2)
                    (zip z00 z01) (zip z10 z11) in
  m11 <$> z = z00 /\ m12 <$> z = z01 /\ m21 <$> z = z10 /\ m22 <$> z = z11.
Proof.
  revert z00 z01 z10 z11.
  induction n as [|n IH]; intros [|a z00] [|b z01] [|c z10] [|d z11];
    try discriminate; intros H0 H1 H2 H3.
  - repeat split; reflexivity.
  - simpl in H0, H1, H2, H3.
    destruct (IH z00 z01 z10 z11) as (E0 & E1 & E2 & E3); try lia.
    cbv zeta in *. cbn [zip_with]. rewrite !fmap_cons.
    cbn [m11 m12 m21 m22 fst snd]. rewrite E0, E1, E2, E3.
    repeat split; reflexivity.
Qed.

(** The four columns that [tee_network] fills. *)
Lemma tee_z_columns (n : nat) (Z1 Z2 Z3 : list complex128) (z : list mat2) :
  tee_z n Z1 Z2 Z3 = Some z ->
  exists c00 c01 c11,
    broadcast2 add Z1 Z2 ≫= assign n = Some c00 /\
    assign n Z2 = Some c01 /\
    broadcast2 add Z2 Z3 ≫= assign n = Some c11 /\
    m11 <$> z = c00 /\ m12 <$> z = c01 /\ m21 <$> z = c01 /\ m22 <$> z = c11.
Proof.
  unfold tee_z. intros H.
  destruct (broadcast2 add Z1 Z2 ≫= assign n) as [c00|] eqn:H00; [|discriminate].
  destruct (assign n Z2) as [c01|] eqn:H01; [|discriminate].
  destruct (broadcast2 add Z2 Z3 ≫= assign n) as [c11|] eqn:H11; [|discriminate].
  simpl in H. injection H as <-.
  exists c00, c01, c11. repeat split; try reflexivity;
    apply (columns_proj n c00 c01 c01 c11);
    eauto using assign_length;
    match goal with
    | H : broadcast2 add ?a ?b ≫= assign n = Some ?c |- length ?c = n =>
        destruct (broadcast2 add a b); [apply (assign_length _ _ _ H)|discriminate]
    end.
Qed.

(** A symmetric impedance matrix gives a symmetric scattering matrix. *)
Lemma z2s_point_symmetric (z0 : R) (i : nat) (Z S : mat2) :
  m12 Z = m21 Z -> z2s_point z0 i Z = Returned S -> m12 S = m21 S.
Proof.
  intros Hsym. unfold z2s_point. destruct (is_zero _); [discriminate|].
  intros [= <-]. simpl. rewrite Hsym. reflexivity.
Qed.

Lemma transpose_to_matrix (p : mat2) :
  m12 p = m21 p -> transpose (to_matrix p) = to_matrix p.
Proof. destruct p as [a b c d]; simpl. intros ->. reflexivity. Qed.

Lemma Network_from_z_reciprocal (f : list R) (z : list mat2) (z0 : R)
    (net : Network.t) :
  Forall (fun p => m12 p = m21 p) z ->
  Network_from_z f z z0 = Returned net ->
  Forall (fun m => transpose m = m) (Network.s net).
Proof.
  intros Hsym H. unfold Network_from_z in H.
  destruct (mapM_idx (z2s_point z0) 0 z) as [S|e] eqn:HS; [|discriminate].
  injection H as <-. simpl. apply Forall_fmap. rewrite Forall_lookup.
  intros j p Hp. simpl. apply transpose_to_matrix.
  destruct (mapM_idx_inv _ _ _ _ HS) as [Hlen Hpt].
  destruct (lookup_lt_is_Some_2 z j) as [q Hq].
  { apply lookup_lt_Some in Hp. lia. }
  destruct (Hpt j q Hq) as (y & Hy & Hg). rewrite Hp in Hy. injection Hy as <-.
  rewrite Forall_lookup in Hsym.
  exact (z2s_point_symmetric _ _ _ _ (Hsym j q Hq) Hg).
Qed.

Lemma broadcast2_same op (l1 l2 : list complex128) :
  length l1 = length l2 -> broadcast2 op l1 l2 = Some (zip_with op l1 l2).
Proof. intros H. unfold broadcast2. rewrite decide_True by exact H. reflexivity. Qed.

Lemma assign_same (n : nat) (l : list complex128) :
  length l = n -> assign n l = Some l.
Proof. intros H. unfold assign. rewrite decide_True by exact H. reflexivity. Qed.

Lemma tee_z_Fin (Z1 Z2 Z3 : list C) :
  length Z2 = length Z1 -> length Z3 = length Z1 ->
  tee_z (length Z1) (Fin <$> Z1) (Fin <$> Z2) (Fin <$> Z3)
  = Some (tee_points Z1 Z2 Z3).
Proof.
  intros H2 H3. unfold tee_z.
  rewrite !broadcast2_same by (rewrite !length_fmap; lia).
  cbn [mbind option_bind].
  rewrite !assign_same
    by (rewrite ?length_zip_with, !length_fmap; lia).
  cbn [mbind option_bind]. f_equal.
  revert Z2 Z3 H2 H3. induction Z1 as [|z1 Z1 IH]; intros [|z2 Z2] [|z3 Z3];
    try discriminate; intros H2 H3; [reflexivity|].
  simpl in H2, H3. rewrite !fmap_cons. cbn [zip_with tee_points].
  f_equal. apply IH; lia.
Qed.

Lemma tee_points_finite (Z1 Z2 Z3 : list C) :
  Forall finite_mat2 (tee_points Z1 Z2 Z3).
Proof.
  revert Z2 Z3. induction Z1 as [|z1 Z1 IH]; intros [|z2 Z2] [|z3 Z3];
    simpl; try constructor; [|apply IH].
  unfold finite_mat2; simpl. tauto.
Qed.

Lemma tee_points_lookup (Z1 Z2 Z3 : list C) (i : nat) (z1 z2 z3 : C) :
  Z1 !! i = Some z1 -> Z2 !! i = Some z2 -> Z3 !! i = Some z3 ->
  tee_points Z1 Z2 Z3 !! i = Some (tee_point z1 z2 z3).
Proof.
  revert Z1 Z2 Z3. induction i as [|i IH]; intros [|a Z1] [|b Z2] [|c Z3];
    simpl; try discriminate.
  - intros [= ->] [= ->] [= ->]. reflexivity.
  - apply IH.
Qed.

End TeeArrayFacts.

(** ** Cascading is associative where it is defined *)

Module CascadeFacts.
Import Cplx Numpy Skrf Pads CplxFacts NumpyFacts SkrfFacts RoundTripFacts.

Lemma finite_mat2_inv (p : mat2) :
  finite_mat2 p ->
  exists a b c d, p = Mat2 (Fin a) (Fin b) (Fin c) (Fin d).
Proof.
  destruct p as [[a|] [b|] [c|] [d|]]; unfold finite_mat2; simpl; try tauto.
  intros _. exists a, b, c, d. reflexivity.
Qed.

Lemma inv_point_finite (i : nat) (S X : mat2) :
  finite_mat2 S -> inv_point i S = Returned X -> finite_mat2 X.
Proof.
  intros HS H. destruct (finite_mat2_inv _ HS) as (a & b & c & d & ->).
  destruct (inv_point_Returned i a b c d X H) as (_ & _ & _ & ->).
  unfold finite_mat2; simpl. tauto.
Qed.



End CascadeFacts.

Module CompositeFacts.
Import Cplx Numpy Skrf Pads CplxFacts NumpyFacts SkrfFacts CascadeFacts.


Lemma two_port_inv (m : matrix) (p : mat2) :
  two_port m = Returned p -> as_mat2 m = Some p.
Proof. unfold two_port. destruct (as_mat2 m); [intros [= ->]; reflexivity|discriminate]. Qed.








End CompositeFacts.

(** ** Evaluation on single-point networks *)

Module EvalFacts.
Import Cplx Numpy Skrf Pads CplxFacts NumpyFacts SkrfFacts ExtractFacts
       CompositeFacts.

(** Closed arithmetic on complex numerals. *)
Ltac c_eval := apply C_eq; c_unfold; first [ lra | field; lra ].

Lemma two_port_to_matrix (p : mat2) : two_port (to_matrix p) = Returned p.
Proof. destruct p; reflexivity. Qed.

Section Single.
Variables (f z0 : R).

Lemma Network_z_single (p q : mat2) :
  s2z_point z0 0 p = Returned q ->
  Network_z (Network.mk [f] [to_matrix p] z0) = Returned [q].
Proof.
  intros H. unfold Network_z. cbn [Network.s Network.z0 mapM_idx].
  rewrite two_port_to_matrix. cbn [mbind result_bind]. rewrite H. reflexivity.
Qed.

Lemma Network_inv_single (p q : mat2) :
  inv_point 0 p = Returned q ->
  Network_inv (Network.mk [f] [to_matrix p] z0)
  = Returned (Network.mk [f] [to_matrix q] z0).
Proof.
  intros H. unfold Network_inv. cbn [Network.s Network.z0 Network.f mapM_idx].
  rewrite two_port_to_matrix. cbn [mbind result_bind]. rewrite H. reflexivity.
Qed.


Lemma cascade_single (z0' : R) (a b x : mat2) :
  cascade_point a b = x ->
  cascade (Network.mk [f] [to_matrix a] z0) (Network.mk [f] [to_matrix b] z0')
  = Returned (Network.mk [f] [to_matrix x] z0).
Proof.
  intros H. unfold cascade. rewrite decide_True by (split; reflexivity).
  cbn [Network.s Network.z0 Network.f zip_with mapM_idx fst snd].
  rewrite !two_port_to_matrix. cbn [mbind result_bind]. rewrite H. reflexivity.
Qed.

Lemma tee_network_single (z1 z2 z3 : complex128) (S : mat2) :
  z2s_point z0 0 (Mat2 (add z1 z2) z2 z2 (add z2 z3)) = Returned S ->
  tee_network [f] [z1] [z2] [z3] z0
  = Returned (Network.mk [f] [to_matrix S] z0).
Proof.
  intros H. unfold tee_network, Network_from_z.
  change (tee_z (length [f]) [z1] [z2] [z3])
    with (Some [Mat2 (add z1 z2) z2 z2 (add z2 z3)]).
  cbn [of_option mbind result_bind mapM_idx]. rewrite H. reflexivity.
Qed.

End Single.

(** Point evaluations with the values supplied. *)
Lemma s2z_point_eval (z0 : R) (i : nat) (a b c d za zb zc zd : C) :
  let r := RtoC z0 in
  let det := ((C1 - a) * (C1 - d) - b * c)%C in
  det <> C0 ->
  (r * ((C1 + a) * (C1 - d) + b * c) / det)%C = za ->
  (r * (RtoC 2 * b) / det)%C = zb ->
  (r * (RtoC 2 * c) / det)%C = zc ->
  (r * ((C1 - a) * (C1 + d) + b * c) / det)%C = zd ->
  s2z_point z0 i (Mat2 (Fin a) (Fin b) (Fin c) (Fin d))
  = Returned (Mat2 (Fin za) (Fin zb) (Fin zc) (Fin zd)).
Proof.
  intros r det Hdet <- <- <- <-.
  exact (s2z_point_Fin z0 i a b c d Hdet).
Qed.

Lemma z2s_point_eval (z0 : R) (i : nat) (a b c d sa sb sc sd : C) :
  let r := RtoC z0 in
  let det := ((a + r) * (d + r) - b * c)%C in
  det <> C0 ->
  (((a - r) * (d + r) - b * c) / det)%C = sa ->
  (RtoC 2 * r * b / det)%C = sb ->
  (RtoC 2 * r * c / det)%C = sc ->
  (((a + r) * (d - r) - b * c) / det)%C = sd ->
  z2s_point z0 i (Mat2 (Fin a) (Fin b) (Fin c) (Fin d))
  = Returned (Mat2 (Fin sa) (Fin sb) (Fin sc) (Fin sd)).
Proof.
  intros r det Hdet <- <- <- <-.
  exact (z2s_point_Fin z0 i a b c d Hdet).
Qed.


Lemma inv_point_eval (i : nat) (a b c d ia ib ic id : C) :
  let det := (a * d - b * c)%C in
  c <> C0 -> b <> C0 -> det <> C0 ->
  (a / det)%C = ia -> (- c / det)%C = ib ->
  (- b / det)%C = ic -> (d / det)%C = id ->
  inv_point i (Mat2 (Fin a) (Fin b) (Fin c) (Fin d))
  = Returned (Mat2 (Fin ia) (Fin ib) (Fin ic) (Fin id)).
Proof.
  intros det Hc Hb Hdet <- <- <- <-.
  exact (inv_point_Fin i a b c d Hc Hb Hdet).
Qed.

Lemma cascade_point_eval (a11 a12 a21 a22 b11 b12 b21 b22 : C)
    (x11 x12 x21 x22 : C) :
  let det := (C1 - a22 * b11)%C in
  det <> C0 ->
  (a11 + a12 * b11 * a21 / det)%C = x11 ->
  (a12 * b12 / det)%C = x12 ->
  (a21 * b21 / det)%C = x21 ->
  (b22 + b21 * a22 * b12 / det)%C = x22 ->
  cascade_point (Mat2 (Fin a11) (Fin a12) (Fin a21) (Fin a22))
                (Mat2 (Fin b11) (Fin b12) (Fin b21) (Fin b22))
  = Mat2 (Fin x11) (Fin x12) (Fin x21) (Fin x22).
Proof.
  intros det Hdet <- <- <- <-.
  exact (cascade_point_Fin a11 a12 a21 a22 b11 b12 b21 b22 Hdet).
Qed.

(** The extraction at a finite point, with the closure constant [k], the
    coefficient [b], a root [t] of the discriminant in the right half
    plane and the two roots supplied. *)
Lemma extract_point_eval (z11 z21 k b t x1 x2 : C) :
  Finite.den z11 z21 <> C0 ->
  Finite.k z11 z21 = k ->
  (RtoC (-2) * (z11 + z21 * k))%C = b ->
  (t * t)%C = (b * b - RtoC 4 * RtoC 1 * (z11 * z11 - z21 * z21))%C ->
  (0 < Re t \/ (Re t = 0 /\ 0 <= Im t))%R ->
  ((RtoC (-1) * b + t) / (RtoC 2 * RtoC 1))%C = x1 ->
  ((RtoC (-1) * b - t) / (RtoC 2 * RtoC 1))%C = x2 ->
  extract_point (Fin z11) (Fin z21)
  = (Fin (if Rle_dec 0 (Im x1) then x1 else x2),
     Fin (z11 + z21 - (if Rle_dec 0 (Im x1) then x1 else x2))%C,
     Fin (k * (if Rle_dec 0 (Im x1) then x1 else x2))%C).
Proof.
  intros Hden Hk Hb Ht Hpos H1 H2.
  rewrite extract_point_Fin by exact Hden.
  assert (Hs : Csqrt (Finite.disc z11 z21) = t).
  { unfold Finite.disc, Finite.b, Finite.c. rewrite Hk, Hb, <- Ht.
    apply Csqrt_of_sqr, Hpos. }
  assert (E1 : Finite.x1 z11 z21 = x1).
  { unfold Finite.x1. rewrite Hs. unfold Finite.b. rewrite Hk, Hb. exact H1. }
  assert (E2 : Finite.x2 z11 z21 = x2).
  { unfold Finite.x2. rewrite Hs. unfold Finite.b. rewrite Hk, Hb. exact H2. }
  unfold Finite.Z2, Finite.Z3, Finite.Z1. rewrite E1, E2, Hk. reflexivity.
Qed.

End EvalFacts.

(** ** The sample inputs, evaluated *)

Module ExampleFacts.
Import Cplx Numpy Skrf Pads Examples CplxFacts NumpyFacts SkrfFacts
       ExtractFacts EvalFacts.
Open Scope R_scope.

Lemma isolated_z :
  Network_z isolated
  = Returned [Mat2 (Fin (50, 0)) (Fin C0) (Fin C0) (Fin (50, 0))].
Proof.
  apply Network_z_single. apply s2z_point_eval; try c_eval. c_nonzero.
Qed.

Lemma isolated_extract :
  extract_pad isolated = Returned ([f0], [NonFinite], [NonFinite], [NonFinite]).
Proof.
  rewrite (extract_pad_Returned _ _ isolated_z).
  cbn [fmap list_fmap]. unfold point_of. cbn [m11 m21].
  rewrite extract_point_degenerate by c_eval. reflexivity.
Qed.

Lemma capacitive_z :
  Network_z capacitive
  = Returned [Mat2 (Fin (70/3, -140/3)) (Fin (20/3, -40/3))
                   (Fin (20/3, -40/3)) (Fin (70/3, -140/3))].
Proof.
  apply Network_z_single. apply s2z_point_eval; try c_eval. c_nonzero.
Qed.

Lemma capacitive_point :
  extract_point (Fin (70/3, -140/3)) (Fin (20/3, -40/3))
  = (Fin (15, -30), Fin (15, -30), Fin (15/8, -15/4)).
Proof.
  rewrite (extract_point_eval _ _ (1/8, 0) (-145/3, 290/3) (55/3, -110/3)
             (100/3, -200/3) (15, -30)); try c_eval.
  - destruct (Rle_dec 0 (Im (100/3, -200/3))) as [H|H]; [simpl in H; lra|].
    repeat f_equal; c_eval.
  - c_nonzero.
  - left. simpl. lra.
Qed.

Lemma capacitive_extract :
  extract_pad capacitive
  = Returned ([f0], [Fin (15, -30)], [Fin (15, -30)], [Fin (15/8, -15/4)]).
Proof.
  rewrite (extract_pad_Returned _ _ capacitive_z).
  cbn [fmap list_fmap]. unfold point_of. cbn [m11 m21].
  rewrite capacitive_point. reflexivity.
Qed.

Lemma tee_pad_built :
  tee_network [f0] [Fin tee_Z1] [Fin tee_Z2] [Fin tee_Z3] 50 = Returned tee_pad.
Proof.
  apply tee_network_single. np_unfold. unfold tee_Z1, tee_Z2, tee_Z3.
  apply z2s_point_eval; try c_eval. c_nonzero.
Qed.

Lemma tee_pad_z :
  Network_z tee_pad
  = Returned [Mat2 (Fin (50, 50)) (Fin (0, -150))
                   (Fin (0, -150)) (Fin (50, 50))].
Proof.
  apply Network_z_single. apply s2z_point_eval; try c_eval. c_nonzero.
Qed.

Lemma tee_pad_point :
  extract_point (Fin (50, 50)) (Fin (0, -150))
  = (Fin (-100, 50), Fin (150, -150), Fin (0, 150)).
Proof.
  rewrite (extract_point_eval _ _ (3/5, -6/5) (260, 80) (60, 180)
             (-100, 50) (-160, -130)); try c_eval.
  - destruct (Rle_dec 0 (Im (-100, 50))) as [H|H]; [|simpl in H; lra].
    repeat f_equal; c_eval.
  - c_nonzero.
  - left. simpl. lra.
Qed.

Lemma tee_pad_extract :
  extract_pad tee_pad
  = Returned ([f0], [Fin (-100, 50)], [Fin (150, -150)], [Fin (0, 150)]).
Proof.
  rewrite (extract_pad_Returned _ _ tee_pad_z).
  cbn [fmap list_fmap]. unfold point_of. cbn [m11 m21].
  rewrite tee_pad_point. reflexivity.
Qed.

(** The first pair of measurements: both associations return the same
    composite. *)
Lemma long_line_inv :
  Network_inv long_line
  = Returned (single_point f0 50 (2, 0) (3, 0) (3, 0) (2, 0)).
Proof.
  apply Network_inv_single. apply inv_point_eval; first [c_eval | c_nonzero].
Qed.

Lemma composite_right :
  pads_composite short_line long_line = Returned composite.
Proof.
  unfold pads_composite. rewrite long_line_inv. cbn [mbind result_bind].
  unfold short_line, single_point.
  rewrite (cascade_single f0 50 50 _ _
             (Mat2 (Fin (-4/7, 0)) (Fin (3/7, 0)) (Fin (3/7, 0)) (Fin (-4/7, 0)))).
  - cbn [mbind result_bind]. apply cascade_single.
    apply cascade_point_eval; try c_eval. c_nonzero.
  - apply cascade_point_eval; try c_eval. c_nonzero.
Qed.

Lemma composite_left :
  pads_composite_left short_line long_line = Returned composite.
Proof.
  unfold pads_composite_left. rewrite long_line_inv. cbn [mbind result_bind].
  unfold short_line, single_point.
  rewrite (cascade_single f0 50 50 _ _
             (Mat2 (Fin (-4/7, 0)) (Fin (3/7, 0)) (Fin (3/7, 0)) (Fin (-4/7, 0)))).
  - cbn [mbind result_bind]. apply cascade_single.
    apply cascade_point_eval; try c_eval. c_nonzero.
  - apply cascade_point_eval; try c_eval. c_nonzero.
Qed.

(** The second pair: the de-embedding inverse of the long measurement is
    not its matrix inverse, and the composite is not the one of the
    specification's formula. *)
Lemma long_b_inv :
  Network_inv long_b
  = Returned (single_point f0 50 (0, 0) (2, 0) (2, 0) (-2, 0)).
Proof.
  apply Network_inv_single. apply inv_point_eval; first [c_eval | c_nonzero].
Qed.



Lemma composite_b_left :
  pads_composite_left short_b long_b = Returned composite_b.
Proof.
  unfold pads_composite_left. rewrite long_b_inv. cbn [mbind result_bind].
  unfold short_b, single_point.
  rewrite (cascade_single f0 50 50 _ _
             (Mat2 (Fin (1/2, 0)) (Fin (1, 0)) (Fin (1, 0)) (Fin (-4, 0)))).
  - cbn [mbind result_bind]. apply cascade_single.
    apply cascade_point_eval; try c_eval. c_nonzero.
  - apply cascade_point_eval; try c_eval. c_nonzero.
Qed.


(** The whole extraction on the two sample files. *)
Lemma composite_symmetrized :
  enforce_reciprocal_symmetric composite = composite.
Proof.
  unfold enforce_reciprocal_symmetric, composite, single_point.
  cbn [Network.s Network.f Network.z0 fmap list_fmap]. f_equal. f_equal.
  apply (SymmetrizerFacts.symmetrized_fixed 2).
  - split; [reflexivity|]. repeat constructor.
  - split; [reflexivity|]. eexists. reflexivity.
Qed.

Lemma composite_z :
  Network_z composite
  = Returned [Mat2 (Fin (15/2, 0)) (Fin (15/2, 0))
                   (Fin (15/2, 0)) (Fin (15/2, 0))].
Proof.
  apply Network_z_single. apply s2z_point_eval; try c_eval. c_nonzero.
Qed.

Lemma composite_point :
  extract_point (Fin (15/2, 0)) (Fin (15/2, 0))
  = (Fin (20, 0), Fin (-5, 0), Fin (20/3, 0)).
Proof.
  rewrite (extract_point_eval _ _ (1/3, 0) (-20, 0) (20, 0) (20, 0) (0, 0));
    try c_eval.
  - destruct (Rle_dec 0 (Im (20, 0))) as [H|H]; [|simpl in H; lra].
    repeat f_equal; c_eval.
  - c_nonzero.
  - left. simpl. lra.
Qed.

Lemma composite_extract :
  extract_pad composite
  = Returned ([f0], [Fin (20, 0)], [Fin (-5, 0)], [Fin (20/3, 0)]).
Proof.
  rewrite (extract_pad_Returned _ _ composite_z).
  cbn [fmap list_fmap]. unfold point_of. cbn [m11 m21].
  rewrite composite_point. reflexivity.
Qed.

Lemma left_pad_built :
  tee_network [f0] [Fin (20, 0)] [Fin (-5, 0)] [Fin (20/3, 0)] 50
  = Returned left_pad.
Proof.
  apply tee_network_single. np_unfold.
  apply z2s_point_eval; try c_eval. c_nonzero.
Qed.

Lemma right_pad_built :
  tee_network [f0] [Fin (20/3, 0)] [Fin (-5, 0)] [Fin (20, 0)] 50
  = Returned right_pad.
Proof.
  apply tee_network_single. np_unfold.
  apply z2s_point_eval; try c_eval. c_nonzero.
Qed.

Lemma right_pad_mirror : Network_swap_ports left_pad = right_pad.
Proof. reflexivity. Qed.

Lemma sample_networks :
  get_pads_networks sample_files "2015_600.s2p" "2015_1200.s2p"
  = Returned (left_pad, right_pad).
Proof.
  unfold get_pads_networks, load, sample_files.
  rewrite lookup_insert_eq. rewrite lookup_insert_ne by discriminate.
  rewrite lookup_insert_eq. cbn [of_option mbind result_bind].
  rewrite composite_right. cbn [mbind result_bind].
  rewrite composite_symmetrized, composite_extract. cbn [mbind result_bind].
  rewrite left_pad_built. cbn [mbind result_bind].
  rewrite right_pad_built. reflexivity.
Qed.

Lemma sample_run :
  get_pads (Globals.mk 2015 600) "2015_600.s2p" "2015_1200.s2p" sample_files
  = (Returned (left_pad, right_pad),
     <[ "right_pad_2015_600.s2p" := right_pad ]>
       (<[ "left_pad_2015_600.s2p" := left_pad ]> sample_files)).
Proof. unfold get_pads. rewrite sample_networks. reflexivity. Qed.

End ExampleFacts.

(** * The claims *)

Import Cplx Numpy Skrf Pads Examples.
Import CplxFacts NumpyFacts SymmetrizerFacts SkrfFacts TeeFacts ExtractFacts
       RoundTripFacts TeeArrayFacts CascadeFacts CompositeFacts EvalFacts
       ExampleFacts.

(** C4: for every network [N] (one n-by-n scattering matrix per frequency
    point, as the array shape [(n_freq, n_ports, n_ports)] has it),
    [enforce_reciprocal_symmetric N] keeps the frequency grid and the
    reference impedance of [N] and has, at every frequency point of [N],
    again an n-by-n scattering matrix, which equals its own transpose and
    carries one shared value in all its diagonal entries. *)
Theorem enforce_reciprocal_symmetric_invariant (N : Network.t) (n : nat) :
  Forall (square n) (Network.s N) ->
  Network.f (enforce_reciprocal_symmetric N) = Network.f N /\
  Network.z0 (enforce_reciprocal_symmetric N) = Network.z0 N /\
  length (Network.s (enforce_reciprocal_symmetric N)) = length (Network.s N) /\
  forall i, (i < length (Network.s N))%nat ->
    exists m d,
      Network.s (enforce_reciprocal_symmetric N) !! i = Some m /\
      square n m /\ transpose m = m /\
      (forall r c, (r < n)%nat -> (c < n)%nat ->
                   mat_get m r c = mat_get m c r) /\
      (forall r, (r < n)%nat -> mat_get m r r = d).
Proof.
  intros Hn. split; [reflexivity|]. split; [reflexivity|].
  unfold enforce_reciprocal_symmetric; cbn [Network.s].
  split; [rewrite !length_fmap; reflexivity|].
  intros i Hi. destruct (lookup_lt_is_Some_2 _ _ Hi) as [m0 Hm0].
  rewrite Forall_lookup in Hn. pose proof (Hn i m0 Hm0) as Hsq.
  pose proof (symmetrized_square n m0 Hsq) as Hsq'.
  destruct (symmetrized_reciprocal_symmetric n m0 Hsq) as [Htr _].
  exists (average_diagonal (reciprocal m0)), (mean (diag (reciprocal m0))).
  split; [rewrite !list_lookup_fmap, Hm0; reflexivity|].
  split; [exact Hsq'|]. split; [exact Htr|]. split.
  - intros r c Hr Hc. rewrite <- Htr at 1.
    apply (mat_get_transpose n); assumption.
  - intros r Hr. rewrite (symmetrized_get n) by assumption.
    unfold entry. rewrite decide_True by reflexivity. reflexivity.
Qed.

Lemma three_port_wf : Network_wf three_port.
Proof. exists 3%nat. repeat constructor. Qed.

Lemma three_port_square : Forall (square 3) (Network.s three_port).
Proof. repeat constructor. Qed.

Lemma enforce_reciprocal_symmetric_invariant_witness :
  Network.f (enforce_reciprocal_symmetric three_port) = Network.f three_port /\
  Network.z0 (enforce_reciprocal_symmetric three_port) = Network.z0 three_port /\
  length (Network.s (enforce_reciprocal_symmetric three_port))
  = length (Network.s three_port) /\
  forall i, (i < length (Network.s three_port))%nat ->
    exists m d,
      Network.s (enforce_reciprocal_symmetric three_port) !! i = Some m /\
      square 3 m /\ transpose m = m /\
      (forall r c, (r < 3)%nat -> (c < 3)%nat ->
                   mat_get m r c = mat_get m c r) /\
      (forall r, (r < 3)%nat -> mat_get m r r = d).
Proof.
  exact (enforce_reciprocal_symmetric_invariant three_port 3 three_port_square).
Defined.



(** On a two-port the diagonal mean is one addition and one halving: in
    binary64 too a second application changes nothing. *)
Example enforce_reciprocal_symmetric_idempotent_binary64 :
  Binary64.enforce_reciprocal_symmetric
    (Binary64.enforce_reciprocal_symmetric Binary64.lossy_two_port)
  = Binary64.enforce_reciprocal_symmetric Binary64.lossy_two_port.
Proof. vm_compute. reflexivity. Qed.

Lemma short_b_square : Forall (square 2) (Network.s short_b).
Proof. repeat constructor. Qed.


(** C7: the network of the mirrored triple [(Z3, Z2, Z1)] is the network of
    [(Z1, Z2, Z3)] with ports 1 and 2 exchanged, including the case where
    building it fails. *)
Theorem tee_network_mirror (f : list R) (Z1 Z2 Z3 : list complex128) (z0 : R) :
  tee_network f Z3 Z2 Z1 z0
  = fmap (M:=result) Network_swap_ports (tee_network f Z1 Z2 Z3 z0).
Proof.
  unfold tee_network. rewrite tee_z_mirror.
  destruct (tee_z (length f) Z1 Z2 Z3) as [z|]; [|reflexivity].
  cbn [fmap option_fmap option_map of_option mbind result_bind].
  apply Network_from_z_swap.
Qed.

(** C10: a network built by [tee_network] comes from an impedance array
    whose two off-diagonal columns both hold [Z2]; its scattering matrices
    equal their transposes (the network is reciprocal); and for finite
    values and a non-zero reference impedance its impedance parameters are
    that array again. *)
Theorem tee_network_reciprocal (f : list R) (Z1 Z2 Z3 : list complex128)
    (z0 : R) (net : Network.t) :
  tee_network f Z1 Z2 Z3 z0 = Returned net ->
  exists z col,
    tee_z (length f) Z1 Z2 Z3 = Some z /\
    assign (length f) Z2 = Some col /\
    m12 <$> z = col /\ m21 <$> z = col /\
    Forall (fun m => transpose m = m) (Network.s net) /\
    (z0 <> 0%R -> Forall finite_mat2 z -> Network_z net = Returned z).
Proof.
  unfold tee_network. intros H.
  destruct (tee_z (length f) Z1 Z2 Z3) as [z|] eqn:Hz; [|discriminate].
  cbn [of_option mbind result_bind] in H.
  destruct (tee_z_columns _ _ _ _ _ Hz)
    as (c00 & c01 & c11 & _ & H01 & _ & _ & E12 & E21 & _).
  exists z, c01. repeat split; try assumption; try reflexivity.
  - apply (Network_from_z_reciprocal f z z0); [|exact H].
    rewrite Forall_lookup. intros j p Hp.
    assert (H1 : (m12 <$> z) !! j = Some (m12 p))
      by (rewrite list_lookup_fmap, Hp; reflexivity).
    assert (H2 : (m21 <$> z) !! j = Some (m21 p))
      by (rewrite list_lookup_fmap, Hp; reflexivity).
    rewrite E12 in H1. rewrite E21 in H2. congruence.
  - intros Hz0 Hfin. exact (Network_z_from_z f z z0 net Hz0 Hfin H).
Qed.

Lemma tee_network_reciprocal_witness :
  tee_network [f0] [Fin tee_Z1] [Fin tee_Z2] [Fin tee_Z3] 50 = Returned tee_pad /\
  exists z col,
    tee_z (length [f0]) [Fin tee_Z1] [Fin tee_Z2] [Fin tee_Z3] = Some z /\
    assign (length [f0]) [Fin tee_Z2] = Some col /\
    m12 <$> z = col /\ m21 <$> z = col /\
    Forall (fun m => transpose m = m) (Network.s tee_pad) /\
    (50 <> 0 -> Forall finite_mat2 z -> Network_z tee_pad = Returned z)%R.
Proof.
  split; [exact tee_pad_built|].
  exact (tee_network_reciprocal [f0] [Fin tee_Z1] [Fin tee_Z2] [Fin tee_Z3]
           50 tee_pad tee_pad_built).
Defined.

(** C2, counterexample: the matched, isolated two-port has [Z21 = 0], so
    the denominator of [k] is zero at its frequency point; [extract_pad]
    returns all the same, with non-finite impedances, and raises no
    [DegenerateModelError]. *)
Lemma extract_pad_degenerate_counterexample :
  Network_z isolated
  = Returned [Mat2 (Fin (50, 0)) (Fin C0) (Fin C0) (Fin (50, 0))] /\
  (RtoC 2 * C0 * (50, 0) + C0 * C0)%C = C0 /\
  extract_pad isolated
  = Returned ([f0], [NonFinite], [NonFinite], [NonFinite]) /\
  extract_pad isolated <> Raised (DegenerateModelError 0).
Proof.
  split; [exact isolated_z|]. split; [c_eval|].
  split; [exact isolated_extract|]. rewrite isolated_extract. discriminate.
Qed.

(** C2, amended: [extract_pad] makes no degeneracy check.  Where the
    denominator [2 Z21 Z11 + Z21^2] of [k] is zero at a frequency point,
    it returns normally and [Z1], [Z2] and [Z3] are non-finite at that
    point. *)
Theorem extract_pad_degenerate_returns (net : Network.t) (Zs : list mat2)
    (i : nat) (p : mat2) (z11 z21 : C) :
  Network_z net = Returned Zs ->
  Zs !! i = Some p -> m11 p = Fin z11 -> m21 p = Fin z21 ->
  (RtoC 2 * z21 * z11 + z21 * z21)%C = C0 ->
  exists Z1 Z2 Z3,
    extract_pad net = Returned (Network.f net, Z1, Z2, Z3) /\
    Z1 !! i = Some NonFinite /\ Z2 !! i = Some NonFinite /\
    Z3 !! i = Some NonFinite.
Proof.
  intros HZ Hp H11 H21 Hden.
  rewrite (extract_pad_Returned _ _ HZ). eexists _, _, _.
  split; [reflexivity|].
  assert (Hpt : point_of p = (NonFinite, NonFinite, NonFinite)).
  { unfold point_of. rewrite H11, H21. apply extract_point_degenerate.
    unfold Finite.den. rewrite Hden. ring. }
  rewrite !list_lookup_fmap, Hp. cbn [fmap option_fmap option_map].
  rewrite Hpt. repeat split; reflexivity.
Qed.

Lemma extract_pad_degenerate_returns_witness :
  exists Z1 Z2 Z3,
    extract_pad isolated = Returned (Network.f isolated, Z1, Z2, Z3) /\
    Z1 !! 0%nat = Some NonFinite /\ Z2 !! 0%nat = Some NonFinite /\
    Z3 !! 0%nat = Some NonFinite.
Proof.
  apply (extract_pad_degenerate_returns isolated
           [Mat2 (Fin (50, 0)) (Fin C0) (Fin C0) (Fin (50, 0))] 0
           (Mat2 (Fin (50, 0)) (Fin C0) (Fin C0) (Fin (50, 0))) (50, 0) C0
           isolated_z); try reflexivity.
  c_eval.
Defined.

(** C3: the root selection does not keep [Im Z1 >= 0].  On the capacitive
    two-port ([S11 = S22 = -0.6j], [S21 = S12 = 0.2] at 50 ohm, a passive
    network) both roots of the quadratic have a negative imaginary part;
    [extract_pad] succeeds and returns [Z1 = 15 - 30j], against the rule
    its docstring states. *)
Lemma extract_pad_inductive_counterexample :
  extract_pad capacitive
  = Returned ([f0], [Fin (15, -30)], [Fin (15, -30)], [Fin (15/8, -15/4)]) /\
  (Im (15, -30) < 0)%R /\ imag_ge0 (Fin (15, -30)) = false.
Proof.
  split; [exact capacitive_extract|]. split; [simpl; lra|].
  unfold imag_ge0. destruct (Rle_dec 0 (Im (15, -30))) as [H|H];
    [simpl in H; lra|reflexivity].
Qed.

(** How the root is selected: at every frequency point the returned [Z1]
    is the root [x1] of the "+" branch when [Im x1 >= 0] and the root [x2]
    of the "-" branch otherwise, whatever the sign of [Im x2]; so
    [Im Z1 >= 0] holds exactly when one of the two roots has a non-negative
    imaginary part. *)
Lemma extract_pad_root_selection (net : Network.t) (f : list R)
    (Z1 Z2 Z3 : list complex128) :
  extract_pad net = Returned (f, Z1, Z2, Z3) ->
  exists Zs,
    Network_z net = Returned Zs /\
    forall i z1, Z1 !! i = Some z1 ->
      exists p, Zs !! i = Some p /\
        let x := quadratic_roots (m11 p) (m21 p) in
        z1 = where_ (imag_ge0 x.1) x.1 x.2 /\
        imag_ge0 z1 = imag_ge0 x.1 || imag_ge0 x.2.
Proof.
  intros H. destruct (extract_pad_inv _ _ _ _ _ H) as (Zs & HZ & _ & -> & _ & _).
  exists Zs. split; [exact HZ|]. intros i z1 Hz1.
  rewrite list_lookup_fmap in Hz1.
  destruct (Zs !! i) as [p|] eqn:Hp; [|discriminate].
  assert (E1 : z1 = (point_of p).1.1)
    by (cbn [fmap option_fmap option_map] in Hz1; congruence).
  subst z1. exists p. split; [reflexivity|].
  unfold point_of. rewrite extract_point_roots. cbn [fst snd].
  split; [reflexivity|].
  unfold where_. destruct (imag_ge0 (quadratic_roots (m11 p) (m21 p)).1) eqn:E.
  - rewrite E. reflexivity.
  - reflexivity.
Qed.

Lemma extract_pad_root_selection_witness :
  exists Zs,
    Network_z capacitive = Returned Zs /\
    forall i z1, [Fin (15, -30)] !! i = Some z1 ->
      exists p, Zs !! i = Some p /\
        let x := quadratic_roots (m11 p) (m21 p) in
        z1 = where_ (imag_ge0 x.1) x.1 x.2 /\
        imag_ge0 z1 = imag_ge0 x.1 || imag_ge0 x.2.
Proof.
  exact (extract_pad_root_selection capacitive _ _ _ _ capacitive_extract).
Defined.

Lemma within_rtol_sq (tol : R) (x y : C) :
  (0 <= tol)%R -> within_rtol tol x y ->
  (Cnorm2 (x - y)%C <= tol * tol * Cnorm2 y)%R.
Proof.
  unfold within_rtol, Cmod. intros Htol H.
  assert (Hx : (0 <= Cnorm2 (x - y)%C)%R) by (unfold Cnorm2; nra).
  assert (Hy : (0 <= Cnorm2 y)%R) by (unfold Cnorm2; nra).
  pose proof (sqrt_pos (Cnorm2 (x - y)%C)) as Hsx.
  pose proof (sqrt_pos (Cnorm2 y)) as Hsy.
  pose proof (sqrt_sqrt _ Hx) as Ex. pose proof (sqrt_sqrt _ Hy) as Ey.
  rewrite <- Ex, <- Ey. nra.
Qed.

(** C1, counterexample: the tee [Z1 = Z3 = 50 + 200j], [Z2 = -150j] has
    [Im Z1 >= 0]; [extract_pad] on the network that [tee_network] builds
    from it at 50 ohm returns [(-100 + 50j, 150 - 150j, 150j)], none of
    them within 1e-9 of the value that went in. *)
Lemma extract_pad_roundtrip_counterexample :
  (0 <= Im tee_Z1)%R /\
  tee_network [f0] [Fin tee_Z1] [Fin tee_Z2] [Fin tee_Z3] 50 = Returned tee_pad /\
  extract_pad tee_pad
  = Returned ([f0], [Fin (-100, 50)], [Fin (150, -150)], [Fin (0, 150)]) /\
  ~ close_to (1 / 1000000000) (Fin (-100, 50)) tee_Z1 /\
  ~ close_to (1 / 1000000000) (Fin (150, -150)) tee_Z2 /\
  ~ close_to (1 / 1000000000) (Fin (0, 150)) tee_Z3.
Proof.
  split; [simpl; lra|]. split; [exact tee_pad_built|].
  split; [exact tee_pad_extract|].
  unfold close_to, tee_Z1, tee_Z2, tee_Z3.
  repeat split; intros H; apply within_rtol_sq in H; try lra;
    revert H; c_unfold; lra.
Qed.

Lemma extract_point_tee_differs (z1 z2 : C) :
  let y := extract_point (Fin (z1 + z2)%C) (Fin z2) in
  (y.1.1, y.1.2) <> (Fin z1, Fin z2).
Proof.
  intros y. unfold y.
  destruct (Ceq_dec (Finite.den (z1 + z2) z2) C0) as [Hd|Hd].
  - rewrite extract_point_degenerate by exact Hd. discriminate.
  - rewrite extract_point_Fin by exact Hd. cbn [fst snd].
    intros [= E1 E2]. apply Hd.
    unfold Finite.Z2 in E2. rewrite E1 in E2.
    assert (Hz2 : z2 = C0).
    { transitivity ((z1 + z2 + z2 - z1) - z2)%C; [ring|]. rewrite E2. ring. }
    unfold Finite.den. rewrite Hz2. ring.
Qed.

(** C1, amended: [extract_pad] on the network of [tee_network(f, Z1, Z2,
    Z3, z0)] (finite values, one per frequency point, [z0] not zero)
    returns at each point the extraction of [(Z11, Z21) = (Z1 + Z2, Z2)].
    Where the denominator of [k] is not zero, the returned [Z1'] is a root
    of [x^2 + b x + c = 0], [Z2' = Z1 + 2 Z2 - Z1'] and [Z3' = k Z1'].
    The pair [(Z1', Z2')] never equals [(Z1, Z2)]. *)
Theorem extract_pad_of_tee (f : list R) (Z1 Z2 Z3 : list C) (z0 : R)
    (net : Network.t) :
  length Z1 = length f -> length Z2 = length f -> length Z3 = length f ->
  z0 <> 0%R ->
  tee_network f (Fin <$> Z1) (Fin <$> Z2) (Fin <$> Z3) z0 = Returned net ->
  exists Z1' Z2' Z3',
    extract_pad net = Returned (f, Z1', Z2', Z3') /\
    forall i z1 z2 z3,
      Z1 !! i = Some z1 -> Z2 !! i = Some z2 -> Z3 !! i = Some z3 ->
      exists y1 y2 y3,
        Z1' !! i = Some y1 /\ Z2' !! i = Some y2 /\ Z3' !! i = Some y3 /\
        (y1, y2, y3) = extract_point (Fin (z1 + z2)%C) (Fin z2) /\
        (y1, y2) <> (Fin z1, Fin z2) /\
        (Finite.den (z1 + z2) z2 <> C0 ->
         exists x,
           y1 = Fin x /\
           (x * x + Finite.b (z1 + z2) z2 * x + Finite.c (z1 + z2) z2)%C = C0 /\
           y2 = Fin (z1 + z2 + z2 - x)%C /\
           y3 = Fin (Finite.k (z1 + z2) z2 * x)%C).
Proof.
  intros Hl1 Hl2 Hl3 Hz0 H. unfold tee_network in H.
  rewrite <- Hl1 in H. rewrite tee_z_Fin in H by congruence.
  cbn [of_option mbind result_bind] in H.
  pose proof (Network_z_from_z f _ z0 net Hz0 (tee_points_finite Z1 Z2 Z3) H)
    as HZ.
  assert (Hf : Network.f net = f).
  { unfold Network_from_z in H.
    destruct (mapM_idx (z2s_point z0) 0 (tee_points Z1 Z2 Z3)); [|discriminate].
    injection H as <-. reflexivity. }
  rewrite (extract_pad_Returned _ _ HZ), Hf. eexists _, _, _.
  split; [reflexivity|]. intros i z1 z2 z3 H1 H2 H3.
  pose proof (tee_points_lookup _ _ _ _ _ _ _ H1 H2 H3) as Hp.
  rewrite !list_lookup_fmap, Hp. cbn [fmap option_fmap option_map].
  unfold point_of, tee_point. cbn [m11 m21].
  eexists _, _, _. repeat split; try reflexivity.
  - apply extract_point_tee_differs.
  - intros Hden. rewrite extract_point_Fin by exact Hden. cbn [fst snd].
    exists (Finite.Z1 (z1 + z2) z2). repeat split; try reflexivity.
    apply Z1_root.
Qed.

Lemma extract_pad_of_tee_witness :
  exists Z1' Z2' Z3',
    extract_pad tee_pad = Returned ([f0], Z1', Z2', Z3') /\
    forall i z1 z2 z3,
      [tee_Z1] !! i = Some z1 -> [tee_Z2] !! i = Some z2 ->
      [tee_Z3] !! i = Some z3 ->
      exists y1 y2 y3,
        Z1' !! i = Some y1 /\ Z2' !! i = Some y2 /\ Z3' !! i = Some y3 /\
        (y1, y2, y3) = extract_point (Fin (z1 + z2)%C) (Fin z2) /\
        (y1, y2) <> (Fin z1, Fin z2) /\
        (Finite.den (z1 + z2) z2 <> C0 ->
         exists x,
           y1 = Fin x /\
           (x * x + Finite.b (z1 + z2) z2 * x + Finite.c (z1 + z2) z2)%C = C0 /\
           y2 = Fin (z1 + z2 + z2 - x)%C /\
           y3 = Fin (Finite.k (z1 + z2) z2 * x)%C).
Proof.
  apply (extract_pad_of_tee [f0] [tee_Z1] [tee_Z2] [tee_Z3] 50 tee_pad);
    try reflexivity.
  - lra.
  - exact tee_pad_built.
Defined.



Lemma single_point_finite (f z0 : R) (a b c d : C) :
  Network_finite (single_point f z0 a b c d).
Proof. unfold Network_finite, single_point; simpl. repeat constructor. Qed.


(** C8: [run_pad_extraction] passes four positional arguments to
    [get_pads], which takes two: every call raises TypeError, nothing is
    returned, no file is written, and the script prints no line. *)
Theorem run_pad_extraction_raises (g : Globals.t) (file1 file2 : string)
    (year length : Z) (fs : files) :
  run_pad_extraction g file1 file2 year length fs = (Raised TypeError, fs) /\
  main file1 file2 year length fs = (Raised TypeError, fs) /\
  exists e fs', script file1 file2 year length fs = (Raised e, fs').
Proof.
  split; [reflexivity|]. split; [reflexivity|].
  unfold script.
  destruct (get_pads _ _ _ fs) as [[?|e] fs1]; [|eauto].
  destruct (get_pads _ _ _ fs1) as [[?|e] fs2]; [|eauto].
  exists TypeError, fs2. reflexivity.
Qed.

(** C9, counterexample: on the two sample files [get_pads] succeeds and
    leaves two files on disk that were not there before. *)
Lemma get_pads_writes_counterexample :
  get_pads (Globals.mk 2015 600) "2015_600.s2p" "2015_1200.s2p" sample_files
  = (Returned (left_pad, right_pad),
     <[ "right_pad_2015_600.s2p" := right_pad ]>
       (<[ "left_pad_2015_600.s2p" := left_pad ]> sample_files)) /\
  sample_files !! "left_pad_2015_600.s2p" = None /\
  <[ "right_pad_2015_600.s2p" := right_pad ]>
    (<[ "left_pad_2015_600.s2p" := left_pad ]> sample_files)
  <> sample_files.
Proof.
  split; [exact sample_run|].
  assert (Hnone : sample_files !! "left_pad_2015_600.s2p" = None).
  { unfold sample_files. rewrite !lookup_insert_ne by discriminate.
    apply lookup_empty. }
  split; [exact Hnone|]. intros Heq.
  assert (Hl : (<[ "right_pad_2015_600.s2p" := right_pad ]>
                  (<[ "left_pad_2015_600.s2p" := left_pad ]> sample_files))
               !! "left_pad_2015_600.s2p" = Some left_pad).
  { rewrite lookup_insert_ne by discriminate. apply lookup_insert_eq. }
  rewrite Heq, Hnone in Hl. discriminate.
Qed.

Lemma pad_names_differ (g : Globals.t) :
  (left_pad_name g +:+ ".s2p")%string <> (right_pad_name g +:+ ".s2p")%string.
Proof. discriminate. Qed.

(** C9, amended: [get_pads] does the file I/O itself.  When it returns the
    two pads it has written the left pad to [left_pad_<year>_<length>.s2p]
    and the right pad to [right_pad_<year>_<length>.s2p], named after the
    module-level [year] and [length], and has left every other file as it
    was; when it raises, no file has changed. *)
Theorem get_pads_files (g : Globals.t) (file1 file2 : string)
    (fs fs' : files) (r : result (Network.t * Network.t)) :
  get_pads g file1 file2 fs = (r, fs') ->
  match r with
  | Returned (left_pad, right_pad) =>
      fs' !! (left_pad_name g +:+ ".s2p")%string = Some left_pad /\
      fs' !! (right_pad_name g +:+ ".s2p")%string = Some right_pad /\
      forall name,
        name <> (left_pad_name g +:+ ".s2p")%string ->
        name <> (right_pad_name g +:+ ".s2p")%string ->
        fs' !! name = fs !! name
  | Raised _ => fs' = fs
  end.
Proof.
  unfold get_pads. destruct (get_pads_networks fs file1 file2) as [[l rp]|e].
  - intros [= <- <-]. unfold write_touchstone. repeat split.
    + rewrite lookup_insert_ne by (symmetry; apply pad_names_differ).
      apply lookup_insert_eq.
    + apply lookup_insert_eq.
    + intros name Hl Hr. rewrite !lookup_insert_ne by congruence. reflexivity.
  - intros [= <- <-]. reflexivity.
Qed.

Lemma get_pads_files_witness :
  let fs' := <[ "right_pad_2015_600.s2p" := right_pad ]>
               (<[ "left_pad_2015_600.s2p" := left_pad ]> sample_files) in
  fs' !! "left_pad_2015_600.s2p" = Some left_pad /\
  fs' !! "right_pad_2015_600.s2p" = Some right_pad /\
  forall name,
    name <> "left_pad_2015_600.s2p" -> name <> "right_pad_2015_600.s2p" ->
    fs' !! name = sample_files !! name.
Proof.
  exact (get_pads_files (Globals.mk 2015 600) "2015_600.s2p" "2015_1200.s2p"
           sample_files _ _ sample_run).
Defined.

(** * Further properties of pads.py *)

(** ** enforce_reciprocal_symmetric, entry by entry *)

Lemma diag_reciprocal (n : nat) (m : matrix) :
  square n m -> diag (reciprocal m) = diag m.
Proof.
  intros Hsq.
  assert (Hsqr : square n (reciprocal m)).
  { rewrite reciprocal_imap. apply square_imap2, Hsq. }
  apply list_eq. intros r. destruct (decide (r < n)%nat) as [Hr|Hr].
  - rewrite !(diag_lookup n) by assumption. f_equal.
    rewrite reciprocal_imap, (mat_get_imap2 n) by assumption.
    apply half_double.
  - rewrite !lookup_ge_None_2; [reflexivity| |]; rewrite length_diag.
    + destruct Hsq as [-> _]. lia.
    + destruct Hsqr as [-> _]. lia.
Qed.

(** X1: the symmetrizer keeps the number of frequency points and the matrix
    size; in its output every diagonal entry is the mean of the input's
    diagonal at that frequency and every other entry [(r, c)] is
    [(s[r, c] + s[c, r]) / 2]. *)
Theorem enforce_reciprocal_symmetric_entries (N : Network.t) (n i : nat)
    (m : matrix) :
  Forall (square n) (Network.s N) ->
  Network.s N !! i = Some m ->
  length (Network.s (enforce_reciprocal_symmetric N)) = length (Network.s N) /\
  exists m',
    Network.s (enforce_reciprocal_symmetric N) !! i = Some m' /\
    square n m' /\
    forall r c, (r < n)%nat -> (c < n)%nat ->
      mat_get m' r c
      = if decide (c = r) then mean (diag m)
        else ((mat_get m r c + mat_get m c r) / of_Z 2)%np.
Proof.
  intros Hs Hm. unfold enforce_reciprocal_symmetric; simpl. split.
  - rewrite !length_fmap. reflexivity.
  - rewrite Forall_lookup in Hs. pose proof (Hs i m Hm) as Hsq.
    exists (average_diagonal (reciprocal m)). split; [|split].
    + rewrite !list_lookup_fmap, Hm. reflexivity.
    + apply symmetrized_square, Hsq.
    + intros r c Hr Hc. rewrite (symmetrized_get n) by assumption.
      unfold entry. rewrite (diag_reciprocal n) by exact Hsq. reflexivity.
Qed.

Lemma enforce_reciprocal_symmetric_entries_witness :
  length (Network.s (enforce_reciprocal_symmetric three_port))
  = length (Network.s three_port) /\
  exists m',
    Network.s (enforce_reciprocal_symmetric three_port) !! 0%nat = Some m' /\
    square 3 m' /\
    forall r c, (r < 3)%nat -> (c < 3)%nat ->
      mat_get m' r c
      = if decide (c = r)
        then mean (diag [ [Fin (1, 0); Fin (2, 1); Fin (0, 0)];
                          [Fin (4, 0); Fin (3, 0); Fin (0, 1)];
                          [Fin (0, 0); Fin (0, 3); Fin (5, 0)] ])%R
        else ((mat_get [ [Fin (1, 0); Fin (2, 1); Fin (0, 0)];
                         [Fin (4, 0); Fin (3, 0); Fin (0, 1)];
                         [Fin (0, 0); Fin (0, 3); Fin (5, 0)] ]%R r c
               + mat_get [ [Fin (1, 0); Fin (2, 1); Fin (0, 0)];
                           [Fin (4, 0); Fin (3, 0); Fin (0, 1)];
                           [Fin (0, 0); Fin (0, 3); Fin (5, 0)] ]%R c r)
              / of_Z 2)%np.
Proof.
  exact (enforce_reciprocal_symmetric_entries three_port 3 0 _
           three_port_square eq_refl).
Defined.

Lemma diag_transpose (n : nat) (m : matrix) :
  square n m -> diag (transpose m) = diag m.
Proof.
  intros Hsq. pose proof (square_transpose n m Hsq) as Hsqt.
  apply list_eq. intros r. destruct (decide (r < n)%nat) as [Hr|Hr].
  - rewrite !(diag_lookup n) by assumption. f_equal.
    apply (mat_get_transpose n); assumption.
  - rewrite !lookup_ge_None_2; [reflexivity| |]; rewrite length_diag.
    + destruct Hsq as [-> _]. lia.
    + destruct Hsqt as [-> _]. lia.
Qed.

(** X2: the symmetrizer sees only the symmetric part of its input: the
    network with every scattering matrix transposed is symmetrized to the
    same result. *)
Theorem enforce_reciprocal_symmetric_transpose (N : Network.t) :
  Network_wf N ->
  enforce_reciprocal_symmetric (Network_transpose N)
  = enforce_reciprocal_symmetric N.
Proof.
  intros [n Hn]. unfold enforce_reciprocal_symmetric, Network_transpose; simpl.
  f_equal. rewrite <- !list_fmap_compose. apply list_fmap_ext.
  intros j m Hm. simpl. rewrite Forall_lookup in Hn.
  pose proof (Hn j m Hm) as Hsq.
  pose proof (square_transpose n m Hsq) as Hsqt.
  apply (matrix_ext n); try (apply symmetrized_square; assumption).
  intros r c Hr Hc. rewrite !(symmetrized_get n) by assumption.
  unfold entry. rewrite !(diag_reciprocal n) by assumption.
  rewrite (diag_transpose n) by assumption.
  case_decide; [reflexivity|].
  rewrite !(mat_get_transpose n) by assumption. f_equal. apply add_comm.
Qed.

Lemma enforce_reciprocal_symmetric_transpose_witness :
  enforce_reciprocal_symmetric (Network_transpose three_port)
  = enforce_reciprocal_symmetric three_port.
Proof. exact (enforce_reciprocal_symmetric_transpose three_port three_port_wf). Defined.

(** ** extract_pad: outcome, invariants of a regular point *)



(** The closure constant on a regular point is [Z21 / (2 Z11 + Z21)]. *)
Lemma closure_k_ratio (z11 z21 : C) :
  Finite.den z11 z21 <> C0 ->
  z21 <> C0 /\ (C2 * z11 + z21)%C <> C0 /\
  (Finite.k z11 z21 * (C2 * z11 + z21))%C = z21.
Proof.
  intros Hden.
  assert (Hd : Finite.den z11 z21 = (- (z21 * (C2 * z11 + z21)))%C).
  { unfold Finite.den. c_consts. ring. }
  assert (H21 : z21 <> C0).
  { intros ->. apply Hden. rewrite Hd. ring. }
  assert (HD : (C2 * z11 + z21)%C <> C0).
  { intros E. apply Hden. rewrite Hd, E. ring. }
  split; [exact H21|]. split; [exact HD|].
  unfold Finite.k. rewrite Hd. field. rewrite <- Hd. exact Hden.
Qed.

(** X4: at a frequency point with finite [Z11], [Z21] where the
    denominator of [k] is not zero, the three values returned by
    [extract_pad] are finite and satisfy [Z1 + Z2 = Z11 + Z21],
    [Z3 (2 Z11 + Z21) = Z21 Z1], and [Z1] solves
    [D x^2 - 2 (Z11 D + Z21^2) x + D (Z11^2 - Z21^2) = 0] with
    [D = 2 Z11 + Z21]. *)
Theorem extract_pad_regular_point (net : Network.t) (Zs : list mat2)
    (i : nat) (p : mat2) (z11 z21 : C) :
  Network_z net = Returned Zs ->
  Zs !! i = Some p -> m11 p = Fin z11 -> m21 p = Fin z21 ->
  (RtoC 2 * z21 * z11 + z21 * z21)%C <> C0 ->
  exists Z1 Z2 Z3 x1 x2 x3,
    extract_pad net = Returned (Network.f net, Z1, Z2, Z3) /\
    Z1 !! i = Some (Fin x1) /\ Z2 !! i = Some (Fin x2) /\
    Z3 !! i = Some (Fin x3) /\
    (x1 + x2 = z11 + z21)%C /\
    (x3 * (C2 * z11 + z21) = z21 * x1)%C /\
    let D := (C2 * z11 + z21)%C in
    (D * (x1 * x1) - C2 * (z11 * D + z21 * z21) * x1
     + D * (z11 * z11 - z21 * z21))%C = C0.
Proof.
  intros HZ Hp H11 H21 Hnz.
  assert (Hden : Finite.den z11 z21 <> C0).
  { unfold Finite.den. intros E. apply Hnz.
    transitivity (- (RtoC (-1) * (RtoC 2 * z21 * z11 + z21 * z21)))%C;
      [c_consts; ring|]. rewrite E. ring. }
  rewrite (extract_pad_Returned _ _ HZ).
  eexists _, _, _, (Finite.Z1 z11 z21), (Finite.Z2 z11 z21), (Finite.Z3 z11 z21).
  split; [reflexivity|].
  assert (Hpt : point_of p
                = (Fin (Finite.Z1 z11 z21), Fin (Finite.Z2 z11 z21),
                   Fin (Finite.Z3 z11 z21))).
  { unfold point_of. rewrite H11, H21. apply extract_point_Fin, Hden. }
  rewrite !list_lookup_fmap, Hp. cbn [fmap option_fmap option_map].
  rewrite Hpt. cbn [fst snd].
  destruct (closure_k_ratio z11 z21 Hden) as (Hz21 & HD & Hk).
  split; [reflexivity|]. split; [reflexivity|]. split; [reflexivity|].
  split; [unfold Finite.Z2; ring|]. split.
  - unfold Finite.Z3.
    transitivity (Finite.k z11 z21 * (C2 * z11 + z21) * Finite.Z1 z11 z21)%C;
      [ring|]. rewrite Hk. reflexivity.
  - cbv zeta. set (D := (C2 * z11 + z21)%C).
    pose proof (Z1_root z11 z21) as Hroot. cbv zeta in Hroot.
    set (x := Finite.Z1 z11 z21) in *.
    transitivity (D * (x * x + Finite.b z11 z21 * x + Finite.c z11 z21))%C;
      [|rewrite Hroot; ring].
    unfold Finite.b, Finite.c. c_consts.
    transitivity (D * (x * x) - C2 * (z11 * D + z21 * (Finite.k z11 z21 * D)) * x
                  + D * (z11 * z11 - z21 * z21))%C; [|ring].
    unfold D. rewrite Hk. reflexivity.
Qed.

Lemma extract_pad_regular_point_witness :
  exists Z1 Z2 Z3 x1 x2 x3,
    extract_pad capacitive = Returned (Network.f capacitive, Z1, Z2, Z3) /\
    Z1 !! 0%nat = Some (Fin x1) /\ Z2 !! 0%nat = Some (Fin x2) /\
    Z3 !! 0%nat = Some (Fin x3) /\
    (x1 + x2 = (70/3, -140/3)%R + (20/3, -40/3)%R)%C /\
    (x3 * (C2 * (70/3, -140/3)%R + (20/3, -40/3)%R) = (20/3, -40/3)%R * x1)%C /\
    let D := (C2 * (70/3, -140/3)%R + (20/3, -40/3)%R)%C in
    (D * (x1 * x1)
     - C2 * ((70/3, -140/3)%R * D + (20/3, -40/3)%R * (20/3, -40/3)%R) * x1
     + D * ((70/3, -140/3)%R * (70/3, -140/3)%R
            - (20/3, -40/3)%R * (20/3, -40/3)%R))%C = C0.
Proof.
  apply (extract_pad_regular_point capacitive _ 0
           (Mat2 (Fin (70/3, -140/3)%R) (Fin (20/3, -40/3)%R)
                 (Fin (20/3, -40/3)%R) (Fin (70/3, -140/3)%R))
           (70/3, -140/3)%R (20/3, -40/3)%R capacitive_z); try reflexivity.
  c_nonzero.
Defined.

Lemma roots_sum (z11 z21 : C) :
  (Finite.x1 z11 z21 + Finite.x2 z11 z21
   = C2 * (z11 + z21 * Finite.k z11 z21))%C.
Proof.
  unfold Finite.x1, Finite.x2, Finite.b.
  set (s := Csqrt (Finite.disc z11 z21)). set (k := Finite.k z11 z21).
  c_consts. unfold C2. c_field.
Qed.

Lemma roots_product (z11 z21 : C) :
  (Finite.x1 z11 z21 * Finite.x2 z11 z21 = z11 * z11 - z21 * z21)%C.
Proof.
  unfold Finite.x1, Finite.x2.
  pose proof (Csqrt_sqr (Finite.disc z11 z21)) as Hs.
  set (s := Csqrt (Finite.disc z11 z21)) in *.
  unfold Finite.disc, Finite.c in Hs. set (b := Finite.b z11 z21) in *.
  c_consts.
  transitivity ((b * b - s * s) / (C2 * C2))%C; [unfold C2; c_field|].
  rewrite RtoC_4 in Hs. change (RtoC 1) with C1 in Hs. rewrite Hs.
  unfold C2. c_field.
Qed.

(** X5: where the denominator of [k] is not zero, the two candidate roots
    of [extract_pad] add up to [2 (Z11 + Z21 k)] and multiply to
    [Z11^2 - Z21^2]; so whenever [Im (Z11 + Z21 k) >= 0] the selected [Z1]
    has a non-negative imaginary part. *)
Theorem extract_point_vieta (z11 z21 : C) :
  (RtoC 2 * z21 * z11 + z21 * z21)%C <> C0 ->
  exists x1 x2 k,
    quadratic_roots (Fin z11) (Fin z21) = (Fin x1, Fin x2) /\
    closure_k (Fin z11) (Fin z21) = Fin k /\
    (x1 + x2 = C2 * (z11 + z21 * k))%C /\
    (x1 * x2 = z11 * z11 - z21 * z21)%C /\
    ((0 <= Im (z11 + z21 * k)%C)%R ->
     exists y, (extract_point (Fin z11) (Fin z21)).1.1 = Fin y /\
               (0 <= Im y)%R).
Proof.
  intros Hnz.
  assert (Hden : Finite.den z11 z21 <> C0).
  { unfold Finite.den. intros E. apply Hnz.
    transitivity (- (RtoC (-1) * (RtoC 2 * z21 * z11 + z21 * z21)))%C;
      [c_consts; ring|]. rewrite E. ring. }
  exists (Finite.x1 z11 z21), (Finite.x2 z11 z21), (Finite.k z11 z21).
  split; [apply quadratic_roots_Fin, Hden|].
  split; [apply closure_k_Fin, Hden|].
  split; [apply roots_sum|]. split; [apply roots_product|].
  intros Him. rewrite extract_point_Fin by exact Hden. cbn [fst snd].
  exists (Finite.Z1 z11 z21). split; [reflexivity|].
  unfold Finite.Z1.
  destruct (Rle_dec 0 (Im (Finite.x1 z11 z21))) as [H1|H1]; [exact H1|].
  pose proof (f_equal Im (roots_sum z11 z21)) as Hsum.
  set (m := (z11 + z21 * Finite.k z11 z21)%C) in *.
  assert (E : Im (Finite.x1 z11 z21 + Finite.x2 z11 z21)%C
              = (Im (Finite.x1 z11 z21) + Im (Finite.x2 z11 z21))%R)
    by reflexivity.
  assert (E2 : Im (C2 * m)%C = (2 * Im m)%R).
  { unfold C2, Cmul, RtoC, Im, Re; simpl. ring. }
  rewrite E, E2 in Hsum. lra.
Qed.

Lemma extract_point_vieta_witness :
  exists x1 x2 k,
    quadratic_roots (Fin tee_Z1) (Fin tee_Z2) = (Fin x1, Fin x2) /\
    closure_k (Fin tee_Z1) (Fin tee_Z2) = Fin k /\
    (x1 + x2 = C2 * (tee_Z1 + tee_Z2 * k))%C /\
    (x1 * x2 = tee_Z1 * tee_Z1 - tee_Z2 * tee_Z2)%C /\
    ((0 <= Im (tee_Z1 + tee_Z2 * k)%C)%R ->
     exists y, (extract_point (Fin tee_Z1) (Fin tee_Z2)).1.1 = Fin y /\
               (0 <= Im y)%R).
Proof.
  apply (extract_point_vieta tee_Z1 tee_Z2). unfold tee_Z1, tee_Z2. c_nonzero.
Defined.

(** ** extract_pad under a change of impedance scale *)

(** The principal square root commutes with a positive real factor. *)
Lemma Csqrt_scale (r : R) (d : C) :
  (0 < r)%R -> Csqrt (RtoC (r * r) * d)%C = (RtoC r * Csqrt d)%C.
Proof.
  intros Hr. destruct d as [a b].
  unfold Csqrt, Cmul, Cmod, Cnorm2, RtoC; simpl.
  set (m := R_sqrt.sqrt (a * a + b * b)%R).
  assert (Hm0 : (0 <= m)%R) by apply sqrt_pos.
  assert (Hmm : (m * m = a * a + b * b)%R) by (apply sqrt_sqrt; nra).
  assert (Hma : (0 <= m + a)%R) by nra.
  assert (Hmb : (0 <= m - a)%R) by nra.
  assert (Em : R_sqrt.sqrt ((r * r * a - 0 * b) * (r * r * a - 0 * b)
                     + (r * r * b + 0 * a) * (r * r * b + 0 * a))%R
               = (r * r * m)%R).
  { replace ((r * r * a - 0 * b) * (r * r * a - 0 * b)
             + (r * r * b + 0 * a) * (r * r * b + 0 * a))%R
      with (Rsqr (r * r) * (a * a + b * b))%R by (unfold Rsqr; ring).
    rewrite sqrt_mult by (try apply Rle_0_sqr; nra).
    rewrite sqrt_Rsqr by nra. reflexivity. }
  rewrite Em.
  replace ((r * r * m + (r * r * a - 0 * b)) / 2)%R
    with (Rsqr r * ((m + a) / 2))%R by (unfold Rsqr; field).
  replace ((r * r * m - (r * r * a - 0 * b)) / 2)%R
    with (Rsqr r * ((m - a) / 2))%R by (unfold Rsqr; field).
  rewrite !sqrt_mult by (try apply Rle_0_sqr; lra).
  rewrite sqrt_Rsqr by lra.
  assert (Hrr : (0 < r * r)%R) by nra.
  replace (r * r * b + 0 * a)%R with (r * r * b)%R by ring.
  destruct (Rlt_dec (r * r * b) 0) as [H|H];
    destruct (Rlt_dec b 0) as [Hb|Hb];
    try (exfalso; apply Rnot_lt_le in Hb; nra);
    try (exfalso; apply H; nra);
    apply C_eq; simpl; ring.
Qed.

Lemma Im_scale (r : R) (x : C) : Im (RtoC r * x)%C = (r * Im x)%R.
Proof. destruct x as [a b]. unfold Cmul, RtoC, Im, Re; simpl. ring. Qed.

Section Scale.
Variables (r : R) (z11 z21 : C).
Hypothesis Hr : (0 < r)%R.

Let rc : C := RtoC r.

Lemma rc_neq_0 : rc <> C0.
Proof using Hr. apply RtoC_neq_0. lra. Qed.

Lemma den_scale :
  Finite.den (rc * z11) (rc * z21) = (rc * rc * Finite.den z11 z21)%C.
Proof. unfold Finite.den. ring. Qed.

Lemma k_scale :
  Finite.den z11 z21 <> C0 ->
  Finite.k (rc * z11) (rc * z21) = Finite.k z11 z21.
Proof using Hr.
  intros Hden. unfold Finite.k. rewrite den_scale.
  set (d := Finite.den z11 z21) in *. field.
  split; [exact Hden|exact rc_neq_0].
Qed.

Lemma disc_scale :
  Finite.den z11 z21 <> C0 ->
  Finite.disc (rc * z11) (rc * z21)
  = (RtoC (r * r) * Finite.disc z11 z21)%C.
Proof using Hr.
  intros Hden. unfold Finite.disc, Finite.b, Finite.c.
  rewrite (k_scale Hden). set (k := Finite.k z11 z21).
  replace (RtoC (r * r)) with (rc * rc)%C
    by (apply C_eq; unfold rc, Cmul, RtoC; simpl; ring).
  ring.
Qed.

Lemma x1_scale :
  Finite.den z11 z21 <> C0 ->
  Finite.x1 (rc * z11) (rc * z21) = (rc * Finite.x1 z11 z21)%C.
Proof using Hr.
  intros Hden. unfold Finite.x1. rewrite (disc_scale Hden).
  rewrite (Csqrt_scale _ _ Hr). fold rc. unfold Finite.b.
  rewrite (k_scale Hden). set (k := Finite.k z11 z21).
  set (s := Csqrt (Finite.disc z11 z21)). c_consts. unfold C2. c_field.
Qed.

Lemma x2_scale :
  Finite.den z11 z21 <> C0 ->
  Finite.x2 (rc * z11) (rc * z21) = (rc * Finite.x2 z11 z21)%C.
Proof using Hr.
  intros Hden. unfold Finite.x2. rewrite (disc_scale Hden).
  rewrite (Csqrt_scale _ _ Hr). fold rc. unfold Finite.b.
  rewrite (k_scale Hden). set (k := Finite.k z11 z21).
  set (s := Csqrt (Finite.disc z11 z21)). c_consts. unfold C2. c_field.
Qed.

Lemma Z1_scale :
  Finite.den z11 z21 <> C0 ->
  Finite.Z1 (rc * z11) (rc * z21) = (rc * Finite.Z1 z11 z21)%C.
Proof using Hr.
  intros Hden. unfold Finite.Z1. rewrite (x1_scale Hden), (x2_scale Hden).
  unfold rc. rewrite Im_scale.
  destruct (Rle_dec 0 (r * Im (Finite.x1 z11 z21))) as [H|H];
    destruct (Rle_dec 0 (Im (Finite.x1 z11 z21))) as [H'|H'];
    try reflexivity; exfalso; nra.
Qed.

End Scale.

Lemma extract_point_scale_aux (r : R) (Z11 Z21 : complex128) :
  (0 < r)%R ->
  extract_point (of_R r * Z11)%np (of_R r * Z21)%np
  = let y := extract_point Z11 Z21 in
    (of_R r * y.1.1, of_R r * y.1.2, of_R r * y.2)%np.
Proof.
  intros Hr. destruct Z11 as [z11|], Z21 as [z21|]; try reflexivity.
  change (of_R r * Fin z11)%np with (Fin (RtoC r * z11)%C).
  change (of_R r * Fin z21)%np with (Fin (RtoC r * z21)%C).
  destruct (Ceq_dec (Finite.den z11 z21) C0) as [Hden|Hden].
  - rewrite (extract_point_degenerate z11 z21 Hden).
    rewrite extract_point_degenerate; [reflexivity|].
    rewrite den_scale, Hden. ring.
  - rewrite (extract_point_Fin z11 z21 Hden).
    rewrite extract_point_Fin.
    + cbv zeta. cbn [fst snd]. unfold Finite.Z2, Finite.Z3.
      rewrite (k_scale r z11 z21 Hr Hden), (Z1_scale r z11 z21 Hr Hden).
      unfold of_R, mul, lift2.
      apply f_equal2; [apply f_equal2|]; apply f_equal; ring.
    + rewrite den_scale. apply Cmul_neq_0; [|exact Hden].
      apply Cmul_neq_0; apply RtoC_neq_0; lra.
Qed.

(** X6: [extract_pad] is homogeneous in the impedance scale: with [Z11]
    and [Z21] both multiplied by a real factor [r > 0], the closure
    constant [k] is unchanged and each of [Z1], [Z2], [Z3] is multiplied by
    [r] (the same root is selected, and a non-finite point stays
    non-finite). *)
Theorem extract_point_scale (r : R) (Z11 Z21 : complex128) :
  (0 < r)%R ->
  closure_k (of_R r * Z11)%np (of_R r * Z21)%np = closure_k Z11 Z21 /\
  extract_point (of_R r * Z11)%np (of_R r * Z21)%np
  = let y := extract_point Z11 Z21 in
    (of_R r * y.1.1, of_R r * y.1.2, of_R r * y.2)%np.
Proof.
  intros Hr. split; [|apply extract_point_scale_aux, Hr].
  destruct Z11 as [z11|], Z21 as [z21|]; try reflexivity.
  change (of_R r * Fin z11)%np with (Fin (RtoC r * z11)%C).
  change (of_R r * Fin z21)%np with (Fin (RtoC r * z21)%C).
  destruct (Ceq_dec (Finite.den z11 z21) C0) as [Hden|Hden].
  - unfold closure_k. rewrite !closure_denominator_Fin.
    rewrite den_scale, Hden. np_unfold.
    rewrite !div_Fin_zero; [reflexivity|reflexivity|ring].
  - rewrite (closure_k_Fin z11 z21 Hden), closure_k_Fin.
    + f_equal. apply k_scale; assumption.
    + rewrite den_scale. apply Cmul_neq_0; [|exact Hden].
      apply Cmul_neq_0; apply RtoC_neq_0; lra.
Qed.

Lemma extract_point_scale_witness :
  closure_k (of_R 2 * Fin (70/3, -140/3)%R)%np (of_R 2 * Fin (20/3, -40/3)%R)%np
  = closure_k (Fin (70/3, -140/3)%R) (Fin (20/3, -40/3)%R) /\
  extract_point (of_R 2 * Fin (70/3, -140/3)%R)%np
                (of_R 2 * Fin (20/3, -40/3)%R)%np
  = let y := extract_point (Fin (70/3, -140/3)%R) (Fin (20/3, -40/3)%R) in
    (of_R 2 * y.1.1, of_R 2 * y.1.2, of_R 2 * y.2)%np.
Proof.
  apply (extract_point_scale 2 (Fin (70/3, -140/3)%R) (Fin (20/3, -40/3)%R)).
  lra.
Defined.

(** ** tee_network: shapes *)

Lemma assign_Some_length (n : nat) (l col : list complex128) :
  assign n l = Some col -> length l = n \/ length l = 1%nat.
Proof.
  unfold assign. case_decide as Hl; [auto|].
  destruct l as [|x [|? ?]]; try discriminate. auto.
Qed.

Lemma broadcast_assign_lengths (n : nat) (l1 l2 col : list complex128) :
  broadcast2 add l1 l2 ≫= assign n = Some col ->
  (length l1 = n \/ length l1 = 1%nat) /\ (length l2 = n \/ length l2 = 1%nat).
Proof.
  unfold broadcast2. case_decide as Hl; cbn [mbind option_bind].
  - intros H. apply assign_Some_length in H.
    rewrite length_zip_with in H. lia.
  - destruct l1 as [|x1 [|x1' l1]], l2 as [|x2 [|x2' l2]];
      cbn [mbind option_bind]; try discriminate;
      intros H; apply assign_Some_length in H;
      rewrite ?length_fmap in H; simpl in *; lia.
Qed.

Lemma tee_z_lengths (n : nat) (Z1 Z2 Z3 : list complex128) (z : list mat2) :
  tee_z n Z1 Z2 Z3 = Some z ->
  length z = n /\
  (length Z1 = n \/ length Z1 = 1%nat) /\
  (length Z2 = n \/ length Z2 = 1%nat) /\
  (length Z3 = n \/ length Z3 = 1%nat).
Proof.
  intros H.
  destruct (tee_z_columns _ _ _ _ _ H)
    as (c00 & c01 & c11 & H00 & H01 & H11 & _ & E12 & _).
  split.
  - rewrite <- (length_fmap m12 z), E12. exact (assign_length _ _ _ H01).
  - destruct (broadcast_assign_lengths _ _ _ _ H00) as [L1 L2].
    destruct (broadcast_assign_lengths _ _ _ _ H11) as [_ L3]. auto.
Qed.

(** X7: a network returned by [tee_network] carries the frequency grid
    and the reference impedance it was given, and one 2-by-2 scattering
    matrix per frequency point; each of [Z1], [Z2], [Z3] then had one value
    per frequency point or a single value. *)
Theorem tee_network_shape (f : list R) (Z1 Z2 Z3 : list complex128) (z0 : R)
    (net : Network.t) :
  tee_network f Z1 Z2 Z3 z0 = Returned net ->
  Network.f net = f /\ Network.z0 net = z0 /\
  length (Network.s net) = length f /\
  Forall (square 2) (Network.s net) /\
  (length Z1 = length f \/ length Z1 = 1%nat) /\
  (length Z2 = length f \/ length Z2 = 1%nat) /\
  (length Z3 = length f \/ length Z3 = 1%nat).
Proof.
  unfold tee_network. intros H.
  destruct (tee_z (length f) Z1 Z2 Z3) as [z|] eqn:Hz; [|discriminate].
  cbn [of_option mbind result_bind] in H. unfold Network_from_z in H.
  destruct (mapM_idx (z2s_point z0) 0 z) as [S|e] eqn:HS; [|discriminate].
  cbn [mbind result_bind] in H. injection H as <-. cbn [Network.f Network.s Network.z0].
  destruct (tee_z_lengths _ _ _ _ _ Hz) as (Hlen & L1 & L2 & L3).
  destruct (mapM_idx_inv _ _ _ _ HS) as [HlenS _].
  split; [reflexivity|]. split; [reflexivity|].
  split; [rewrite length_fmap; lia|].
  split; [|auto].
  apply Forall_fmap, Forall_forall. intros p _. repeat constructor.
Qed.

Lemma tee_network_shape_witness :
  Network.f tee_pad = [f0] /\ Network.z0 tee_pad = 50%R /\
  length (Network.s tee_pad) = length [f0] /\
  Forall (square 2) (Network.s tee_pad) /\
  (length [Fin tee_Z1] = length [f0] \/ length [Fin tee_Z1] = 1%nat) /\
  (length [Fin tee_Z2] = length [f0] \/ length [Fin tee_Z2] = 1%nat) /\
  (length [Fin tee_Z3] = length [f0] \/ length [Fin tee_Z3] = 1%nat).
Proof.
  exact (tee_network_shape [f0] [Fin tee_Z1] [Fin tee_Z2] [Fin tee_Z3] 50
           tee_pad tee_pad_built).
Defined.

(** X8: when one of [Z1], [Z2], [Z3] has neither one value per frequency
    point nor a single value, the assignment into the impedance array
    fails and [tee_network] raises the shape error; no network is built. *)
Theorem tee_network_shape_error (f : list R) (Z1 Z2 Z3 : list complex128)
    (z0 : R) :
  (exists Z, (Z = Z1 \/ Z = Z2 \/ Z = Z3) /\
             length Z <> length f /\ length Z <> 1%nat) ->
  tee_network f Z1 Z2 Z3 z0 = Raised InputError.
Proof.
  intros (Z & HZ & Hn & H1). unfold tee_network.
  destruct (tee_z (length f) Z1 Z2 Z3) as [z|] eqn:Hz; [|reflexivity].
  exfalso. destruct (tee_z_lengths _ _ _ _ _ Hz) as (_ & L1 & L2 & L3).
  destruct HZ as [-> | [-> | ->]]; lia.
Qed.

Lemma tee_network_shape_error_witness :
  tee_network [f0; (2 * f0)%R; (3 * f0)%R]
              [Fin tee_Z1; Fin tee_Z1; Fin tee_Z1]
              [Fin tee_Z2; Fin tee_Z2]
              [Fin tee_Z3] 50
  = Raised InputError.
Proof.
  apply tee_network_shape_error.
  exists [Fin tee_Z2; Fin tee_Z2]. split; [auto|]. split; simpl; lia.
Defined.

(** ** A pad with equal series arms *)

Lemma swap_ports_fixed (p : mat2) :
  swap_ports p = p -> m11 p = m22 p /\ m12 p = m21 p.
Proof. destruct p as [a b c d]. unfold swap_ports; simpl. intros [= -> ->]. auto. Qed.

Lemma to_matrix_reciprocal_symmetric (p : mat2) :
  m11 p = m22 p -> m12 p = m21 p -> reciprocal_symmetric (to_matrix p).
Proof.
  intros H1 H2. split; [apply transpose_to_matrix, H2|].
  exists (m11 p). destruct p as [a b c d]; simpl in *. subst. reflexivity.
Qed.

Lemma symmetric_tee_points (f : list R) (Z1 Z2 : list complex128) (z0 : R)
    (net : Network.t) :
  tee_network f Z1 Z2 Z1 z0 = Returned net ->
  exists S, Network.s net = to_matrix <$> S /\
            Forall (fun p => swap_ports p = p) S.
Proof.
  unfold tee_network. intros H.
  pose proof (tee_z_mirror (length f) Z1 Z2 Z1) as Hmir.
  destruct (tee_z (length f) Z1 Z2 Z1) as [z|] eqn:Hz; [|discriminate].
  cbn [fmap option_fmap option_map] in Hmir. injection Hmir as Hmir.
  cbn [of_option mbind result_bind] in H. unfold Network_from_z in H.
  destruct (mapM_idx (z2s_point z0) 0 z) as [S|e] eqn:HS; [|discriminate].
  cbn [mbind result_bind] in H. injection H as <-. exists S.
  split; [reflexivity|]. rewrite Forall_lookup. intros j s Hs.
  destruct (mapM_idx_inv _ _ _ _ HS) as [Hlen Hpt].
  destruct (lookup_lt_is_Some_2 z j) as [p Hp].
  { apply lookup_lt_Some in Hs. lia. }
  destruct (Hpt j p Hp) as (y & Hy & Hg). rewrite Hs in Hy. injection Hy as <-.
  assert (Hfix : swap_ports p = p).
  { assert (E : (swap_ports <$> z) !! j = Some (swap_ports p))
      by (rewrite list_lookup_fmap, Hp; reflexivity).
    rewrite <- Hmir, Hp in E. congruence. }
  pose proof (z2s_point_swap z0 (0 + j) p) as Hsw.
  rewrite Hfix, Hg in Hsw. cbn [fmap result_fmap] in Hsw. congruence.
Qed.

(** X9: a pad built with the same impedance in both series arms
    ([Z3 = Z1]) is a symmetric network: every scattering matrix equals its
    transpose and has one diagonal value, exchanging the ports changes
    nothing, and [enforce_reciprocal_symmetric] returns it unchanged. *)
Theorem tee_network_equal_arms (f : list R) (Z1 Z2 : list complex128) (z0 : R)
    (net : Network.t) :
  tee_network f Z1 Z2 Z1 z0 = Returned net ->
  Forall reciprocal_symmetric (Network.s net) /\
  Network_swap_ports net = net /\
  enforce_reciprocal_symmetric net = net.
Proof.
  intros H. destruct (symmetric_tee_points _ _ _ _ _ H) as (S & HS & Hfix).
  assert (Hrs : Forall reciprocal_symmetric (Network.s net)).
  { rewrite HS. apply Forall_fmap. eapply Forall_impl; [exact Hfix|].
    intros p Hp. simpl. apply swap_ports_fixed in Hp.
    apply to_matrix_reciprocal_symmetric; tauto. }
  split; [exact Hrs|]. destruct net as [nf ns nz0]. simpl in *. split.
  - unfold Network_swap_ports; simpl. f_equal. subst ns.
    rewrite <- list_fmap_compose. apply list_fmap_ext.
    intros j p Hp. simpl. rewrite Forall_lookup in Hfix.
    rewrite <- (Hfix j p Hp) at 2. destruct p; reflexivity.
  - unfold enforce_reciprocal_symmetric; simpl. f_equal.
    rewrite <- list_fmap_compose. rewrite <- (list_fmap_id ns) at 2.
    apply list_fmap_ext. intros j m Hm. simpl.
    rewrite Forall_lookup in Hrs. apply (symmetrized_fixed 2).
    + subst ns. rewrite list_lookup_fmap in Hm.
      destruct (S !! j) as [p|]; [|discriminate]. injection Hm as <-.
      repeat constructor.
    + exact (Hrs j m Hm).
Qed.

Lemma tee_network_equal_arms_witness :
  Forall reciprocal_symmetric (Network.s tee_pad) /\
  Network_swap_ports tee_pad = tee_pad /\
  enforce_reciprocal_symmetric tee_pad = tee_pad.
Proof.
  exact (tee_network_equal_arms [f0] [Fin tee_Z1] [Fin tee_Z2] 50 tee_pad
           tee_pad_built).
Defined.

(** ** get_pads: what a successful run returns *)






(** ** get_pads: how it fails *)

(** The two outcomes of [get_pads], with the files it leaves. *)
Lemma get_pads_inv (g : Globals.t) (file1 file2 : string) (fs fs' : files)
    (r : result (Network.t * Network.t)) :
  get_pads g file1 file2 fs = (r, fs') ->
  (exists lp rp,
     get_pads_networks fs file1 file2 = Returned (lp, rp) /\
     r = Returned (lp, rp) /\
     fs' = <[ (right_pad_name g +:+ ".s2p")%string := rp ]>
             (<[ (left_pad_name g +:+ ".s2p")%string := lp ]> fs)) \/
  (exists e, get_pads_networks fs file1 file2 = Raised e /\
             r = Raised e /\ fs' = fs).
Proof.
  unfold get_pads.
  destruct (get_pads_networks fs file1 file2) as [[lp rp]|e]; intros [= <- <-].
  - left. exists lp, rp. repeat split; reflexivity.
  - right. exists e. repeat split; reflexivity.
Qed.

(** X11: a missing input file is reported before anything is computed:
    when either file does not exist, [get_pads] raises the file error, for
    whatever the other file holds, and leaves the files untouched. *)
Theorem get_pads_errors (g : Globals.t) (file1 file2 : string) (fs : files) :
  fs !! file1 = None \/ fs !! file2 = None ->
  get_pads g file1 file2 fs = (Raised InputError, fs).
Proof.
  intros Hmiss. unfold get_pads, get_pads_networks, load.
  destruct (fs !! file1) as [L|]; [|reflexivity].
  destruct Hmiss as [Hm|Hm]; [discriminate|]. rewrite Hm. reflexivity.
Qed.

Lemma get_pads_errors_witness :
  get_pads (Globals.mk 2015 600) "2015_600.s2p" "2015_1200.s2p"
           (<[ "2015_600.s2p" := short_line ]> ∅)
  = (Raised InputError, <[ "2015_600.s2p" := short_line ]> ∅).
Proof.
  apply (get_pads_errors (Globals.mk 2015 600) "2015_600.s2p" "2015_1200.s2p").
  right. rewrite lookup_insert_ne by discriminate. apply lookup_empty.
Defined.




(** ** get_pads: running it again *)

Lemma get_pads_networks_frame (fs fs' : files) (file1 file2 : string) :
  fs' !! file1 = fs !! file1 -> fs' !! file2 = fs !! file2 ->
  get_pads_networks fs' file1 file2 = get_pads_networks fs file1 file2.
Proof.
  intros H1 H2. unfold get_pads_networks, load. rewrite H1, H2. reflexivity.
Qed.

(** X13: [get_pads] reads nothing but its two input files, and a run whose
    inputs are not themselves named like its outputs can be repeated: the
    second run returns the same pair and leaves the files exactly as the
    first run left them. *)
Theorem get_pads_rerun (g : Globals.t) (file1 file2 : string)
    (fs fs' : files) (left_pad right_pad : Network.t) :
  file1 <> (left_pad_name g +:+ ".s2p")%string ->
  file1 <> (right_pad_name g +:+ ".s2p")%string ->
  file2 <> (left_pad_name g +:+ ".s2p")%string ->
  file2 <> (right_pad_name g +:+ ".s2p")%string ->
  get_pads g file1 file2 fs = (Returned (left_pad, right_pad), fs') ->
  get_pads g file1 file2 fs' = (Returned (left_pad, right_pad), fs').
Proof.
  intros H1l H1r H2l H2r H.
  destruct (get_pads_inv _ _ _ _ _ _ H)
    as [(lp & rp & Hn & Hr & Hfs)|(e & _ & Hr & _)]; [|discriminate].
  injection Hr as <- <-.
  assert (Hn' : get_pads_networks fs' file1 file2
                = Returned (left_pad, right_pad)).
  { rewrite <- Hn. apply get_pads_networks_frame; rewrite Hfs;
      rewrite !lookup_insert_ne by congruence; reflexivity. }
  unfold get_pads. rewrite Hn'. f_equal. unfold write_touchstone.
  rewrite Hfs. apply map_eq. intros name.
  destruct (decide (name = (right_pad_name g +:+ ".s2p")%string)) as [->|Hr];
    [rewrite !lookup_insert_eq; reflexivity|].
  destruct (decide (name = (left_pad_name g +:+ ".s2p")%string)) as [->|Hl];
    repeat first [ rewrite lookup_insert_eq
                 | rewrite lookup_insert_ne by congruence ];
    reflexivity.
Qed.

Lemma get_pads_rerun_witness :
  get_pads (Globals.mk 2015 600) "2015_600.s2p" "2015_1200.s2p"
    (<[ "right_pad_2015_600.s2p" := right_pad ]>
       (<[ "left_pad_2015_600.s2p" := left_pad ]> sample_files))
  = (Returned (left_pad, right_pad),
     <[ "right_pad_2015_600.s2p" := right_pad ]>
       (<[ "left_pad_2015_600.s2p" := left_pad ]> sample_files)).
Proof.
  apply (get_pads_rerun (Globals.mk 2015 600) "2015_600.s2p" "2015_1200.s2p"
           sample_files); try discriminate.
  exact sample_run.
Defined.

(** ** pads.py as a script *)

Lemma sample_pad_names :
  (left_pad_name (Globals.mk 2015 600) +:+ ".s2p")%string = "left_pad_2015_600.s2p" /\
  (right_pad_name (Globals.mk 2015 600) +:+ ".s2p")%string = "right_pad_2015_600.s2p" /\
  (left_pad_name (Globals.mk 2015 300) +:+ ".s2p")%string = "left_pad_2015_300.s2p" /\
  (right_pad_name (Globals.mk 2015 300) +:+ ".s2p")%string = "right_pad_2015_300.s2p".
Proof. repeat split; vm_compute; reflexivity. Qed.

(** The [__main__] block never passes [run_pad_extraction]. *)
Lemma main_argv_Raised (int : string -> option Z) (argv : list string)
    (fs : files) :
  main_argv int argv fs
  = (Raised (if parse_argv int argv is Some _ then TypeError else InputError), fs).
Proof.
  unfold main_argv. destruct (parse_argv int argv) as [[[[f1 f2] y] l]|];
    reflexivity.
Qed.

(** On a command line that the [__main__] block can read, [script_argv]
    is [script] on the four values read. *)
Lemma script_argv_parsed (int : string -> option Z) (argv : list string)
    (file1 file2 : string) (year length : Z) (fs : files) :
  parse_argv int argv = Some (file1, file2, year, length) ->
  script_argv int argv fs = script file1 file2 year length fs.
Proof.
  intros Hp. unfold script_argv, script, main_argv. rewrite Hp. reflexivity.
Qed.

(** The three ways a run of the script ends. *)
Lemma script_argv_cases (int : string -> option Z) (argv : list string)
    (fs : files) :
  (exists e, get_pads (Globals.mk 2015 600) (sample_file 2015 600)
               (sample_file 2015 (2 * 600)) fs = (Raised e, fs) /\
             script_argv int argv fs = (Raised e, fs)) \/
  (exists l6 r6 e,
     let fs1 := <[ "right_pad_2015_600.s2p" := r6 ]>
                  (<[ "left_pad_2015_600.s2p" := l6 ]> fs) in
     get_pads (Globals.mk 2015 600) (sample_file 2015 600)
       (sample_file 2015 (2 * 600)) fs = (Returned (l6, r6), fs1) /\
     get_pads (Globals.mk 2015 300) (sample_file 2015 300)
       (sample_file 2015 (2 * 300)) fs1 = (Raised e, fs1) /\
     script_argv int argv fs = (Raised e, fs1)) \/
  (exists l6 r6 l3 r3,
     let fs1 := <[ "right_pad_2015_600.s2p" := r6 ]>
                  (<[ "left_pad_2015_600.s2p" := l6 ]> fs) in
     let fs2 := <[ "right_pad_2015_300.s2p" := r3 ]>
                  (<[ "left_pad_2015_300.s2p" := l3 ]> fs1) in
     get_pads (Globals.mk 2015 600) (sample_file 2015 600)
       (sample_file 2015 (2 * 600)) fs = (Returned (l6, r6), fs1) /\
     get_pads (Globals.mk 2015 300) (sample_file 2015 300)
       (sample_file 2015 (2 * 300)) fs1 = (Returned (l3, r3), fs2) /\
     script_argv int argv fs
     = (Raised (if parse_argv int argv is Some _ then TypeError else InputError), fs2)).
Proof.
  destruct sample_pad_names as (Nl6 & Nr6 & Nl3 & Nr3).
  unfold script_argv.
  destruct (get_pads (Globals.mk 2015 600) _ _ fs) as [r1 fs1] eqn:H1.
  destruct (get_pads_inv _ _ _ _ _ _ H1)
    as [(l6 & r6 & _ & -> & Hfs1)|(e1 & _ & -> & ->)];
    [|left; exists e1; split; reflexivity].
  rewrite Nl6, Nr6 in Hfs1. subst fs1. right.
  destruct (get_pads (Globals.mk 2015 300) _ _ _) as [r2 fs2] eqn:H2.
  destruct (get_pads_inv _ _ _ _ _ _ H2)
    as [(l3 & r3 & _ & -> & Hfs2)|(e2 & _ & -> & ->)].
  - rewrite Nl3, Nr3 in Hfs2. subst fs2. right. exists l6, r6, l3, r3.
    cbv zeta. split; [first [reflexivity|exact H1]|].
    split; [first [reflexivity|exact H2]|]. apply main_argv_Raised.
  - left. exists l6, r6, e2. cbv zeta.
    split; [first [reflexivity|exact H1]|].
    split; [first [reflexivity|exact H2]|reflexivity].
Qed.

(** Every run of the script ends with an error and touches at most the
    four sample pad files, the same ones for every command line. *)
Lemma script_argv_frame (int : string -> option Z) (argv : list string)
    (fs : files) :
  exists e fs',
    script_argv int argv fs = (Raised e, fs') /\
    (forall int' argv', exists e',
       script_argv int' argv' fs = (Raised e', fs')) /\
    forall name,
      name <> "left_pad_2015_600.s2p" -> name <> "right_pad_2015_600.s2p" ->
      name <> "left_pad_2015_300.s2p" -> name <> "right_pad_2015_300.s2p" ->
      fs' !! name = fs !! name.
Proof.
  destruct (script_argv_cases int argv fs)
    as [(e & H1 & ->)|[(l6 & r6 & e & H1 & H2 & ->)|(l6 & r6 & l3 & r3 & H1 & H2 & ->)]];
    cbv zeta in *; eexists _, _; (split; [reflexivity|]); split.
  - intros int' argv'. unfold script_argv. rewrite H1. eauto.
  - reflexivity.
  - intros int' argv'. unfold script_argv. rewrite H1, H2. eauto.
  - intros name Ha Hb _ _. rewrite !lookup_insert_ne by congruence. reflexivity.
  - intros int' argv'. unfold script_argv. rewrite H1, H2.
    rewrite main_argv_Raised. eauto.
  - intros name Ha Hb Hc Hd. rewrite !lookup_insert_ne by congruence.
    reflexivity.
Qed.

(** X14: run as a script on any command line, [pads.py] ends with an
    error, and the files it leaves are the same for every command line:
    it touches at most the four pad files of the two built-in sample
    extractions (year 2015, lengths 600 and 300).  When both sample
    extractions succeed, all four files are on disk and the error comes
    from the [__main__] block: IndexError or ValueError for a missing or
    non-numeric argument, and otherwise the TypeError of
    [run_pad_extraction]. *)
Theorem script_outcome (int : string -> option Z) (argv : list string)
    (fs : files) :
  exists e fs',
    script_argv int argv fs = (Raised e, fs') /\
    (forall int' argv', exists e',
       script_argv int' argv' fs = (Raised e', fs')) /\
    (forall name,
       name <> "left_pad_2015_600.s2p" -> name <> "right_pad_2015_600.s2p" ->
       name <> "left_pad_2015_300.s2p" -> name <> "right_pad_2015_300.s2p" ->
       fs' !! name = fs !! name) /\
    (forall p6 fs1 p3 fs2,
       get_pads (Globals.mk 2015 600) (sample_file 2015 600)
         (sample_file 2015 (2 * 600)) fs = (Returned p6, fs1) ->
       get_pads (Globals.mk 2015 300) (sample_file 2015 300)
         (sample_file 2015 (2 * 300)) fs1 = (Returned p3, fs2) ->
       fs' = fs2 /\
       e = (if parse_argv int argv is Some _ then TypeError else InputError) /\
       fs' !! "left_pad_2015_600.s2p" = Some p6.1 /\
       fs' !! "right_pad_2015_600.s2p" = Some p6.2 /\
       fs' !! "left_pad_2015_300.s2p" = Some p3.1 /\
       fs' !! "right_pad_2015_300.s2p" = Some p3.2).
Proof.
  destruct (script_argv_frame int argv fs) as (e & fs' & Hs & Hall & Hframe).
  exists e, fs'. split; [exact Hs|]. split; [exact Hall|].
  split; [exact Hframe|].
  intros p6 fs1 p3 fs2 H1 H2.
  destruct (script_argv_cases int argv fs)
    as [(e0 & H1' & _)|[(l6 & r6 & e0 & H1' & H2' & _)|(l6 & r6 & l3 & r3 & H1' & H2' & Hs')]];
    cbv zeta in *.
  - rewrite H1 in H1'. discriminate.
  - rewrite H1 in H1'. injection H1' as -> ->. rewrite H2 in H2'. discriminate.
  - rewrite H1 in H1'. injection H1' as -> ->.
    rewrite H2 in H2'. injection H2' as -> ->.
    rewrite Hs in Hs'. injection Hs' as -> ->. cbn [fst snd].
    split; [reflexivity|]. split; [reflexivity|].
    repeat split;
      repeat first [ rewrite lookup_insert_eq
                   | rewrite lookup_insert_ne by discriminate ];
      reflexivity.
Qed.

Lemma script_outcome_witness :
  exists e fs',
    script_argv (fun _ => None) ["pads.py"; "a.s2p"] sample_files
    = (Raised e, fs') /\
    fs' !! "2015_600.s2p" = sample_files !! "2015_600.s2p".
Proof.
  destruct (script_outcome (fun _ => None) ["pads.py"; "a.s2p"] sample_files)
    as (e & fs' & Hs & _ & Hframe & _).
  exists e, fs'. split; [exact Hs|]. apply Hframe; discriminate.
Defined.

(** ** frontend.py: run_backend *)

Import Frontend.

(** X15: with [pads.py] as the back end, [run_backend] never reports
    success.  Whatever the user has selected and typed, it either shows a
    warning titled Error or, when the hard-coded interpreter is not
    installed, lets the error of starting it escape; it moves no file:
    the files afterwards differ from the files before at most in the four
    sample pad files the script itself writes. *)
Theorem run_backend_never_succeeds (installed : bool)
    (int int' : string -> option Z) (lines : string -> list string)
    (join : string -> string -> string)
    (rename : string -> string -> files -> result files)
    (str : Network.t -> string) (traceback : error -> string)
    (self : Frontend.t) (fs : files) :
  exists fs',
    ((exists text,
        run_backend int (pads_process installed int' str traceback)
                    lines join rename self fs
        = (Returned (warning "Error" text), fs')) \/
     (installed = false /\ fs' = fs /\
      run_backend int (pads_process installed int' str traceback)
                  lines join rename self fs
      = (Raised InputError, fs))) /\
    forall name,
      name <> "left_pad_2015_600.s2p" -> name <> "right_pad_2015_600.s2p" ->
      name <> "left_pad_2015_300.s2p" -> name <> "right_pad_2015_300.s2p" ->
      fs' !! name = fs !! name.
Proof.
  unfold run_backend.
  destruct (selected (file1_path self)) as [file1|]; [|eauto 6].
  destruct (selected (file2_path self)) as [file2|]; [|eauto 6].
  destruct (selected (output_dir self)) as [dir|]; [|eauto 6].
  destruct (int (year_input self)) as [year|]; [|eauto 6].
  destruct (int (length_input self)) as [length|]; [|eauto 6].
  unfold pads_process. destruct installed.
  - destruct (script_argv_frame int'
                ["pads.py"; file1; file2; pretty year; pretty length] fs)
      as (e & fs' & -> & _ & Hframe).
    cbn [returncode stderr]. rewrite decide_True by discriminate.
    exists fs'. split; [left; exists (traceback e); reflexivity|exact Hframe].
  - exists fs. split; [right; auto|reflexivity].
Qed.

(** X16: [run_backend] validates before it starts anything.  When one of
    the three paths is unset or empty it warns that both files and an
    output directory must be selected; otherwise, when the year or the
    length is not an integer, it warns that they must be numbers.  In both
    cases the files are untouched and neither the child process nor a
    rename has been called: the outcome is the same for every back end and
    file-system primitive. *)
Theorem run_backend_validation (int : string -> option Z)
    (self : Frontend.t) (fs : files) :
  selected (file1_path self) = None \/ selected (file2_path self) = None \/
  selected (output_dir self) = None \/
  int (year_input self) = None \/ int (length_input self) = None ->
  forall run lines join rename,
    run_backend int run lines join rename self fs
    = (Returned
         (warning "Error"
            match selected (file1_path self), selected (file2_path self),
                  selected (output_dir self) with
            | Some _, Some _, Some _ => "Year and Length must be numbers."
            | _, _, _ => "Please select both files and an output directory."
            end), fs).
Proof.
  intros H run lines join rename. unfold run_backend.
  destruct (selected (file1_path self)) as [file1|]; [|reflexivity].
  destruct (selected (file2_path self)) as [file2|]; [|reflexivity].
  destruct (selected (output_dir self)) as [dir|]; [|reflexivity].
  destruct (int (year_input self)) as [year|]; [|reflexivity].
  destruct (int (length_input self)) as [length|]; [|reflexivity].
  exfalso. destruct H as [H|[H|[H|[H|H]]]]; discriminate.
Qed.

Lemma run_backend_validation_witness :
  run_backend (fun _ => Some 2015%Z)
    (fun _ fs => (Returned (Completed 0 "" ""), fs)) (fun _ => [])
    (fun dir name => (dir +:+ "/" +:+ name)%string) (fun _ _ fs => Returned fs)
    (Frontend.mk (Some "2015_600.s2p") (Some "") (Some "out") "2015" "600")
    sample_files
  = (Returned
       (warning "Error" "Please select both files and an output directory."),
     sample_files).
Proof.
  apply (run_backend_validation (fun _ => Some 2015%Z)
           (Frontend.mk (Some "2015_600.s2p") (Some "") (Some "out")
                        "2015" "600") sample_files).
  right. left. reflexivity.
Defined.

(** ** What extract_pad reads of the symmetrized composite *)

Lemma s2z_point_symmetric (z0 : R) (i : nat) (S Z : mat2) :
  m11 S = m22 S -> m12 S = m21 S -> s2z_point z0 i S = Returned Z ->
  m11 Z = m22 Z /\ m12 Z = m21 Z.
Proof.
  destruct S as [a b c d]. cbn [m11 m12 m21 m22]. intros -> ->.
  unfold s2z_point. cbn [m11 m12 m21 m22].
  destruct (is_zero _); [discriminate|].
  intros Heq. injection Heq as <-. cbn [m11 m12 m21 m22].
  split; [|reflexivity].
  match goal with
  | |- context [(?x * ?y + _)%np] => rewrite (mul_comm x y)
  end.
  reflexivity.
Qed.

Lemma as_mat2_symmetric (m : matrix) (S : mat2) :
  reciprocal_symmetric m -> as_mat2 m = Some S ->
  m11 S = m22 S /\ m12 S = m21 S.
Proof.
  intros [Htr [d Hd]] HS.
  destruct m as [|[|a [|b [|? ?]]] [|[|c [|e [|? ?]]] [|? ?]]];
    try discriminate.
  injection HS as <-. cbn [m11 m12 m21 m22].
  cbv in Hd. cbv in Htr. split; congruence.
Qed.

(** X17: the impedance matrices of a symmetrized network are symmetric
    with equal diagonal entries, [Z11 = Z22] and [Z12 = Z21]; so
    [extract_pad], which reads [Z11] and [Z21] only, drops nothing of the
    network that [get_pads] passes to it. *)
Theorem symmetrized_impedance (N : Network.t) (Zs : list mat2) :
  Network_wf N ->
  Network_z (enforce_reciprocal_symmetric N) = Returned Zs ->
  Forall (fun p => m11 p = m22 p /\ m12 p = m21 p) Zs.
Proof.
  intros [n Hn] HZ. unfold Network_z in HZ.
  destruct (mapM_idx_inv _ _ _ _ HZ) as [Hlen Hpt].
  rewrite Forall_lookup. intros j p Hp.
  destruct (lookup_lt_is_Some_2 (Network.s (enforce_reciprocal_symmetric N)) j)
    as [m' Hm'].
  { apply lookup_lt_Some in Hp. lia. }
  destruct (Hpt j m' Hm') as (y & Hy & Hg). rewrite Hp in Hy.
  injection Hy as <-. cbn beta in Hg.
  destruct (two_port m') as [S|] eqn:HS; [|discriminate].
  cbn [mbind result_bind] in Hg.
  assert (Hrs : reciprocal_symmetric m').
  { unfold enforce_reciprocal_symmetric in Hm'. cbn [Network.s] in Hm'.
    rewrite <- list_fmap_compose, list_lookup_fmap in Hm'.
    destruct (Network.s N !! j) as [m|] eqn:Hm; [|discriminate].
    injection Hm' as <-. rewrite Forall_lookup in Hn.
    exact (symmetrized_reciprocal_symmetric n m (Hn j m Hm)). }
  destruct (as_mat2_symmetric _ _ Hrs (two_port_inv _ _ HS)) as [H1 H2].
  exact (s2z_point_symmetric _ _ _ _ H1 H2 Hg).
Qed.

Lemma composite_wf : Network_wf composite.
Proof. exists 2%nat. repeat constructor. Qed.

Lemma symmetrized_impedance_witness :
  Forall (fun p => m11 p = m22 p /\ m12 p = m21 p)
         [Mat2 (Fin (15/2, 0)%R) (Fin (15/2, 0)%R)
               (Fin (15/2, 0)%R) (Fin (15/2, 0)%R)].
Proof.
  apply (symmetrized_impedance composite _ composite_wf).
  rewrite composite_symmetrized. exact composite_z.
Defined.

(** ** enforce_reciprocal_symmetric and the port order *)

Lemma square_swap_ports (n : nat) (m : matrix) :
  square n m -> square n (swap_ports_matrix m).
Proof.
  intros [Hlen Hrows]. unfold swap_ports_matrix. split.
  - rewrite length_reverse, length_fmap. exact Hlen.
  - rewrite Forall_reverse. apply Forall_fmap.
    eapply Forall_impl; [exact Hrows|]. intros row Hrow. simpl.
    rewrite length_reverse. exact Hrow.
Qed.

Lemma mat_get_swap_ports (n : nat) (m : matrix) (r c : nat) :
  square n m -> (r < n)%nat -> (c < n)%nat ->
  mat_get (swap_ports_matrix m) r c = mat_get m (n - S r) (n - S c).
Proof.
  intros Hsq Hr Hc.
  destruct (square_lookup n m (n - S r) (n - S c) Hsq) as (row & x & Hrow & Hx & ->);
    [lia|lia|].
  destruct Hsq as [Hlen Hrows]. rewrite Forall_lookup in Hrows.
  pose proof (Hrows _ _ Hrow) as Hlrow. simpl in Hlrow.
  unfold mat_get, swap_ports_matrix.
  rewrite reverse_lookup by (rewrite length_fmap; lia).
  rewrite length_fmap, Hlen, list_lookup_fmap, Hrow. simpl.
  rewrite reverse_lookup by lia. rewrite Hlrow, Hx. reflexivity.
Qed.

Lemma add_0_l (x : complex128) : (of_Z 0 + x)%np = x.
Proof.
  destruct x as [a|]; [|reflexivity].
  unfold add, lift2, of_Z, of_R. f_equal. apply C_eq; simpl; ring.
Qed.

(** The mean of two entries does not depend on their order: it is one
    addition, and addition commutes. *)
Lemma mean_pair_comm (a b : complex128) : mean [b; a] = mean [a; b].
Proof.
  unfold mean, sum. cbn [foldr length].
  rewrite !(add_comm _ (of_Z 0)), !add_0_l, (add_comm b a). reflexivity.
Qed.

Lemma diag_swap_ports (n : nat) (m : matrix) :
  square n m -> diag (swap_ports_matrix m) = reverse (diag m).
Proof.
  intros Hsq. pose proof (square_swap_ports n m Hsq) as Hsq'.
  assert (Hl : length (diag m) = n)
    by (rewrite length_diag; destruct Hsq as [-> _]; reflexivity).
  apply list_eq. intros r. destruct (decide (r < n)%nat) as [Hr|Hr].
  - rewrite (diag_lookup n) by assumption.
    rewrite reverse_lookup by lia. rewrite Hl.
    rewrite (diag_lookup n) by (assumption || lia).
    f_equal. apply (mat_get_swap_ports n); assumption.
  - rewrite !lookup_ge_None_2; [reflexivity| |].
    + rewrite length_reverse. lia.
    + rewrite length_diag. destruct Hsq' as [-> _]. lia.
Qed.

(** X18: on a two-port network the symmetrizer commutes with the exchange
    of the two ports: symmetrizing the port-swapped network gives the
    port-swapped symmetrized network.  The diagonal mean is then a single
    addition, whose operands the swap exchanges. *)
Theorem enforce_reciprocal_symmetric_swap (N : Network.t) :
  Forall (square 2) (Network.s N) ->
  enforce_reciprocal_symmetric (Network_swap_ports N)
  = Network_swap_ports (enforce_reciprocal_symmetric N).
Proof.
  intros Hn. unfold enforce_reciprocal_symmetric, Network_swap_ports.
  cbn [Network.f Network.s Network.z0]. f_equal.
  rewrite <- !list_fmap_compose. apply list_fmap_ext.
  intros j m Hm. cbn [compose]. rewrite Forall_lookup in Hn.
  pose proof (Hn j m Hm) as Hsq.
  pose proof (square_swap_ports 2 m Hsq) as Hsq'.
  assert (Hmean : mean (reverse (diag m)) = mean (diag m)).
  { assert (Hl : length (diag m) = 2%nat)
      by (rewrite length_diag; destruct Hsq as [-> _]; reflexivity).
    destruct (diag m) as [|a [|b [|? ?]]]; try discriminate Hl.
    apply mean_pair_comm. }
  apply (matrix_ext 2).
  - apply symmetrized_square, Hsq'.
  - apply square_swap_ports, symmetrized_square, Hsq.
  - intros r c Hr Hc.
    rewrite (mat_get_swap_ports 2)
      by (assumption || apply symmetrized_square, Hsq).
    rewrite !(symmetrized_get 2) by (assumption || lia).
    unfold entry. rewrite !(diag_reciprocal 2) by assumption.
    rewrite (diag_swap_ports 2) by assumption.
    rewrite Hmean.
    rewrite !(mat_get_swap_ports 2) by assumption.
    repeat case_decide; try reflexivity; lia.
Qed.

Lemma enforce_reciprocal_symmetric_swap_witness :
  enforce_reciprocal_symmetric (Network_swap_ports short_b)
  = Network_swap_ports (enforce_reciprocal_symmetric short_b).
Proof. exact (enforce_reciprocal_symmetric_swap short_b short_b_square). Defined.

(** ** extract_pad and the reference impedance *)

Lemma scaled_quotient (r z0 : R) (X det : complex128) :
  is_zero det = false ->
  (of_R (r * z0) * X / det)%np = (of_R r * (of_R z0 * X / det))%np.
Proof.
  intros Hz. destruct X as [x|], det as [d|]; try reflexivity.
  assert (Hd : d <> C0).
  { intros ->. rewrite is_zero_Fin_true in Hz by reflexivity. discriminate. }
  unfold of_R, mul, lift2. rewrite !div_Fin by exact Hd.
  f_equal. replace (RtoC (r * z0)) with (RtoC r * RtoC z0)%C
    by (apply C_eq; simpl; ring).
  field. exact Hd.
Qed.

Lemma s2z_point_scale (r z0 : R) (i : nat) (S : mat2) :
  s2z_point (r * z0) i S
  = fmap (M:=result)
      (fun p => Mat2 (of_R r * m11 p) (of_R r * m12 p)
                     (of_R r * m21 p) (of_R r * m22 p))%np
      (s2z_point z0 i S).
Proof.
  unfold s2z_point. cbv zeta.
  destruct (is_zero _) eqn:Hz; [reflexivity|].
  cbn [fmap result_fmap m11 m12 m21 m22].
  rewrite !(scaled_quotient r z0 _ _ Hz). reflexivity.
Qed.

(** X19: the impedances that [extract_pad] returns are proportional to the
    reference impedance of the network: the same scattering data read at
    [r z0] instead of [z0], [r > 0], gives [r] times each of [Z1], [Z2],
    [Z3] on the same frequency grid, and fails where the original fails. *)
Theorem extract_pad_reference_impedance (r : R) (f : list R)
    (s : list matrix) (z0 : R) :
  (0 < r)%R ->
  extract_pad (Network.mk f s (r * z0))
  = fmap (M:=result)
      (fun y : list R * list complex128 * list complex128 * list complex128 =>
         (y.1.1.1, mul (of_R r) <$> y.1.1.2, mul (of_R r) <$> y.1.2,
          mul (of_R r) <$> y.2))
      (extract_pad (Network.mk f s z0)).
Proof.
  intros Hr.
  set (scale := fun p => Mat2 (of_R r * m11 p)%np (of_R r * m12 p)%np
                              (of_R r * m21 p)%np (of_R r * m22 p)%np).
  assert (HZ : Network_z (Network.mk f s (r * z0))
               = fmap (M:=result) (fmap (M:=list) scale)
                      (Network_z (Network.mk f s z0))).
  { unfold Network_z. cbn [Network.s Network.z0].
    apply mapM_idx_fmap_result. intros j m.
    destruct (two_port m) as [S|e]; [|reflexivity].
    cbn [mbind result_bind]. apply s2z_point_scale. }
  destruct (Network_z (Network.mk f s z0)) as [Zs|e] eqn:HZ0.
  - cbn [fmap result_fmap] in HZ.
    rewrite (extract_pad_Returned _ _ HZ), (extract_pad_Returned _ _ HZ0).
    cbn [fmap result_fmap fst snd Network.f].
    rewrite <- !list_fmap_compose.
    assert (Hpt : forall p,
              point_of (scale p)
              = let y := point_of p in
                (of_R r * y.1.1, of_R r * y.1.2, of_R r * y.2)%np).
    { intros p. unfold point_of, scale. cbn [m11 m21].
      apply extract_point_scale_aux, Hr. }
    assert (E1 : ((fun p => (point_of p).1.1) ∘ scale) <$> Zs
                 = (mul (of_R r) ∘ (fun p => (point_of p).1.1)) <$> Zs)
      by (apply list_fmap_ext; intros j p _; cbn [compose];
          rewrite Hpt; reflexivity).
    assert (E2 : ((fun p => (point_of p).1.2) ∘ scale) <$> Zs
                 = (mul (of_R r) ∘ (fun p => (point_of p).1.2)) <$> Zs)
      by (apply list_fmap_ext; intros j p _; cbn [compose];
          rewrite Hpt; reflexivity).
    assert (E3 : ((fun p => (point_of p).2) ∘ scale) <$> Zs
                 = (mul (of_R r) ∘ (fun p => (point_of p).2)) <$> Zs)
      by (apply list_fmap_ext; intros j p _; cbn [compose];
          rewrite Hpt; reflexivity).
    rewrite E1, E2, E3. reflexivity.
  - cbn [fmap result_fmap] in HZ.
    rewrite (extract_pad_Raised _ _ HZ), (extract_pad_Raised _ _ HZ0).
    reflexivity.
Qed.

Lemma extract_pad_reference_impedance_witness :
  extract_pad (Network.mk (Network.f capacitive) (Network.s capacitive) (2 * 50))
  = fmap (M:=result)
      (fun y : list R * list complex128 * list complex128 * list complex128 =>
         (y.1.1.1, mul (of_R 2) <$> y.1.1.2, mul (of_R 2) <$> y.1.2,
          mul (of_R 2) <$> y.2))
      (extract_pad
         (Network.mk (Network.f capacitive) (Network.s capacitive) 50)).
Proof.
  apply (extract_pad_reference_impedance 2 (Network.f capacitive)
           (Network.s capacitive) 50).
  lra.
Defined.

(** ** Where the extraction is finite *)

(** X20: on finite [Z11], [Z21] the extraction is finite exactly when
    [Z21] is not zero and [Z21] is not [-2 Z11]; in the two excluded cases
    all three of [Z1], [Z2], [Z3] are non-finite. *)
Theorem extract_point_finite_iff (z11 z21 : C) :
  let y := extract_point (Fin z11) (Fin z21) in
  (z21 <> C0 /\ (C2 * z11 + z21)%C <> C0 ->
   is_Fin y.1.1 /\ is_Fin y.1.2 /\ is_Fin y.2) /\
  (z21 = C0 \/ (C2 * z11 + z21)%C = C0 ->
   y = (NonFinite, NonFinite, NonFinite)).
Proof.
  assert (Hd : Finite.den z11 z21 = (- (z21 * (C2 * z11 + z21)))%C).
  { unfold Finite.den. c_consts. ring. }
  cbv zeta. split.
  - intros [H1 H2]. rewrite extract_point_Fin; [simpl; auto|].
    rewrite Hd. intros E. apply (Cmul_neq_0 _ _ H1 H2).
    transitivity (- - (z21 * (C2 * z11 + z21)))%C; [ring|]. rewrite E. ring.
  - intros H. apply extract_point_degenerate. rewrite Hd.
    destruct H as [-> | ->]; ring.
Qed.

(** ** tee_network with one value for all frequencies *)

Lemma assign_singleton (n : nat) (x : complex128) :
  assign n [x] = Some (replicate n x).
Proof.
  unfold assign. case_decide as Hn; [|reflexivity].
  simpl in Hn. subst n. reflexivity.
Qed.

Lemma tee_z_singleton (n : nat) (z1 z2 z3 : complex128) :
  tee_z n [z1] [z2] [z3]
  = Some (replicate n (Mat2 (z1 + z2)%np z2 z2 (z2 + z3)%np)).
Proof.
  unfold tee_z. rewrite !broadcast2_same by reflexivity.
  cbn [zip_with mbind option_bind]. rewrite !assign_singleton.
  cbn [mbind option_bind]. f_equal.
  induction n as [|n IH]; [reflexivity|].
  cbn [replicate zip_with]. rewrite IH. reflexivity.
Qed.

Lemma z2s_point_index (z0 : R) (i j : nat) (Z S : mat2) :
  z2s_point z0 i Z = Returned S -> z2s_point z0 j Z = Returned S.
Proof. unfold z2s_point. destruct (is_zero _); [discriminate|]. auto. Qed.

Lemma mapM_idx_replicate (z0 : R) (n i : nat) (Z : mat2) (Ss : list mat2) :
  mapM_idx (z2s_point z0) i (replicate n Z) = Returned Ss ->
  exists X, Ss = replicate n X /\ (n <> 0%nat -> z2s_point z0 0 Z = Returned X).
Proof.
  revert i Ss. induction n as [|n IH]; intros i Ss H; simpl in H.
  - injection H as <-. exists Z. split; [reflexivity|]. intros Hn. lia.
  - destruct (z2s_point z0 i Z) as [X|] eqn:HX; [|discriminate].
    cbn [mbind result_bind] in H.
    destruct (mapM_idx (z2s_point z0) (S i) (replicate n Z)) as [Ss'|] eqn:Hm;
      [|discriminate].
    cbn [mbind result_bind] in H. injection H as <-.
    destruct (IH _ _ Hm) as (X' & -> & HX').
    exists X. split; [|intros _; exact (z2s_point_index _ _ _ _ _ HX)].
    destruct n as [|n]; [reflexivity|].
    assert (E : Returned X' = Returned X).
    { rewrite <- (HX' ltac:(lia)). exact (z2s_point_index _ _ _ _ _ HX). }
    injection E as ->. reflexivity.
Qed.

(** X21: single-element [Z1], [Z2], [Z3] are broadcast over the frequency
    grid: the network built has the same scattering matrix at every
    frequency point, the one of the tee [(Z1, Z2, Z3)] at the given
    reference impedance. *)
Theorem tee_network_broadcast (f : list R) (z1 z2 z3 : complex128) (z0 : R)
    (net : Network.t) :
  tee_network f [z1] [z2] [z3] z0 = Returned net ->
  exists S,
    net = Network.mk f (replicate (length f) (to_matrix S)) z0 /\
    (f <> [] ->
     z2s_point z0 0 (Mat2 (z1 + z2)%np z2 z2 (z2 + z3)%np) = Returned S).
Proof.
  unfold tee_network. rewrite tee_z_singleton.
  cbn [of_option mbind result_bind]. unfold Network_from_z. intros H.
  destruct (mapM_idx (z2s_point z0) 0 _) as [Ss|] eqn:HS; [|discriminate].
  cbn [mbind result_bind] in H. injection H as <-.
  destruct (mapM_idx_replicate _ _ _ _ _ HS) as (S & -> & HS0).
  exists S. split.
  - rewrite fmap_replicate. reflexivity.
  - intros Hf. apply HS0. destruct f; [contradiction|discriminate].
Qed.

Lemma tee_network_broadcast_witness :
  exists S,
    tee_pad = Network.mk [f0] (replicate (length [f0]) (to_matrix S)) 50 /\
    ([f0] <> [] ->
     z2s_point 50 0 (Mat2 (Fin tee_Z1 + Fin tee_Z2)%np (Fin tee_Z2) (Fin tee_Z2)
                          (Fin tee_Z2 + Fin tee_Z3)%np) = Returned S).
Proof.
  exact (tee_network_broadcast [f0] (Fin tee_Z1) (Fin tee_Z2) (Fin tee_Z3) 50
           tee_pad tee_pad_built).
Defined.
